(** * Xpra: string helpers, the legacy RFB rectangle encoder, the
      subprocess bridge and the bandwidth-limit handler

    A shallow embedding of
      - [xpra/util/str_fn.py]           (module [StrFn])
      - [xpra/server/rfb/rfb_encode.py] (module [Rfb])
    together with models of what the unit tests of the repository drive:
      - the callee of the subprocess bridge      (module [Bridge])
      - the network-state packet handlers        (module [NetworkState])
    The properties follow the definitions, module by module. *)

From Stdlib Require Import String Ascii.
From Stdlib Require Import ZArith NArith Bool Lia List.
From Stdlib.Strings Require Import Byte.
Import ListNotations.
Open Scope string_scope.
Open Scope list_scope.
Open Scope Z_scope.

(** ** Python exceptions and results *)

Inductive exn : Type :=
| UnicodeEncodeError
| AssertionError
| StructError
| TypeError.

Inductive result (A : Type) : Type :=
| Ok (a : A)
| Raise (e : exn).
Arguments Ok {A} a.
Arguments Raise {A} e.

Definition bind {A B : Type} (r : result A) (k : A -> result B) : result B :=
  match r with
  | Ok a => k a
  | Raise e => Raise e
  end.

Declare Scope py_scope.
Delimit Scope py_scope with py.
Notation "x <- r ;; k" := (bind r (fun x => k))
  (at level 61, r at next level, right associativity) : py_scope.
Open Scope py_scope.

(** ** Python values *)

(** A [str] is a sequence of Unicode code points, a [bytes] a sequence of
    octets. *)
Definition pystr : Type := list N.
Definition pybytes : Type := list byte.

(** A string literal as a [str]. Rocq strings have no escapes: [lit "\n"]
    is a backslash followed by the letter n, what Python writes ["\\n"]. *)
Definition lit (s : string) : pystr :=
  map N_of_ascii (list_ascii_of_string s).

Definition byte_of_N (n : N) : byte :=
  match Byte.of_N n with
  | Some b => b
  | None => x00
  end.

Definition byte_of_Z (z : Z) : byte := byte_of_N (Z.to_N z).
Definition Z_of_byte (b : byte) : Z := Z.of_N (Byte.to_N b).

(** [len(x)] as a Python integer. *)
Definition len {A : Type} (l : list A) : Z := Z.of_nat (length l).

(** Slices [s[:stop]] and [s[start:]]: a negative index counts from the end,
    and the result is clamped to the sequence. *)
Definition clamp_index (n i : Z) : Z :=
  if i <? 0 then Z.max 0 (i + n) else Z.min i n.

Definition slice_to {A : Type} (s : list A) (stop : Z) : list A :=
  firstn (Z.to_nat (clamp_index (len s) stop)) s.

Definition slice_from {A : Type} (s : list A) (start : Z) : list A :=
  skipn (Z.to_nat (clamp_index (len s) start)) s.

(** The three buffer types the helpers test for with [isinstance]. *)
Inductive bufkind : Type :=
| KBytes
| KByteArray
| KMemoryView.

Record buffer : Type := Buf { buf_kind : bufkind; buf_data : pybytes }.

(** Any other object is represented by what [str()] and [repr()] give. *)
Inductive pyobj : Type :=
| PStr (s : pystr)
| PBuf (b : buffer)
| PObj (str_ repr_ : pystr).

Module StrFn.

(** *** Built-ins used by [str_fn.py] *)

Definition starts_with (old s : pystr) : bool :=
  forallb (fun p => N.eqb (fst p) (snd p)) (combine old s)
  && (length old <=? length s)%nat.

(** [s.replace(old, new)] for a non-empty [old] (the only use in the file):
    occurrences are replaced left to right without overlap. [skip] counts the
    characters of a matched occurrence still to be dropped. *)
Fixpoint replace_from (old new : pystr) (skip : nat) (s : pystr) : pystr :=
  match s with
  | [] => []
  | c :: t =>
      match skip with
      | S k => replace_from old new k t
      | O =>
          if starts_with old s
          then new ++ replace_from old new (length old - 1) t
          else c :: replace_from old new O t
      end
  end.

Definition replace (s old new : pystr) : pystr := replace_from old new O s.

Definition hexdigit (n : N) : N :=
  nth (N.to_nat n) (lit "0123456789abcdef") 0%N.

(** [repr(b)] of a [bytes] object. *)
Definition repr_byte (quote : N) (c : N) : pystr :=
  if (c =? quote)%N || (c =? 92)%N then [92; c]%N
  else if (c =? 9)%N then lit "\t"
  else if (c =? 10)%N then lit "\n"
  else if (c =? 13)%N then lit "\r"
  else if (c <? 32)%N || (127 <=? c)%N
       then lit "\x" ++ [hexdigit (c / 16); hexdigit (c mod 16)]%N
  else [c].

Definition repr_bytes (b : pybytes) : pystr :=
  let cs := map Byte.to_N b in
  let quote :=
    if existsb (N.eqb 39) cs && negb (existsb (N.eqb 34) cs) then 34%N else 39%N in
  [98; quote]%N ++ flat_map (repr_byte quote) cs ++ [quote].

(** [repr()] of a buffer and [str()] of any object. What CPython prints for
    a memoryview ends in the address of the object, which is not part of
    these values: it is left out. *)
Definition repr_buffer (b : buffer) : pystr :=
  match b with
  | Buf KBytes data => repr_bytes data
  | Buf KByteArray data => lit "bytearray(" ++ repr_bytes data ++ lit ")"
  | Buf KMemoryView _ => lit "<memory>"
  end.

Definition py_str (x : pyobj) : pystr :=
  match x with
  | PStr s => s
  | PBuf b => repr_buffer b
  | PObj s _ => s
  end.

(** [s.encode("latin1")] *)
Definition encode_latin1 (s : pystr) : result pybytes :=
  if forallb (fun c => (c <? 256)%N) s
  then Ok (map byte_of_N s)
  else Raise UnicodeEncodeError.

(** [b.decode("latin1")] *)
Definition decode_latin1 (b : pybytes) : pystr := map Byte.to_N b.

(** [s.encode("utf8")]: surrogates cannot be encoded. *)
Definition utf8_char (c : N) : result pybytes :=
  (if c <? 128 then Ok [byte_of_N c]
   else if c <? 2048 then
     Ok [byte_of_N (192 + c / 64); byte_of_N (128 + c mod 64)]
   else if c <? 65536 then
     if (55296 <=? c) && (c <=? 57343) then Raise UnicodeEncodeError
     else Ok [byte_of_N (224 + c / 4096);
              byte_of_N (128 + (c / 64) mod 64);
              byte_of_N (128 + c mod 64)]
   else if c <? 1114112 then
     Ok [byte_of_N (240 + c / 262144);
         byte_of_N (128 + (c / 4096) mod 64);
         byte_of_N (128 + (c / 64) mod 64);
         byte_of_N (128 + c mod 64)]
   else Raise UnicodeEncodeError)%N.

Fixpoint encode_utf8 (s : pystr) : result pybytes :=
  match s with
  | [] => Ok []
  | c :: t =>
      bs <- utf8_char c ;;
      rest <- encode_utf8 t ;;
      Ok (bs ++ rest)
  end.

(** *** [str_fn.py] *)

(** [nonl], on the strings it is applied to. *)
Definition nonl (x : pystr) : pystr :=
  match x with
  | [] => []
  | _ => replace (replace x [10%N] (lit "\n")) [13%N] (lit "\r")
  end.

Definition ellipsize (s : pystr) (limit : Z) : pystr :=
  slice_to s (limit / 2 - 2) ++ lit " .. " ++ slice_from s (2 - limit / 2).

Definition repr_ellipsized_str (obj : pystr) (limit : Z) : pystr :=
  if (limit <? len obj) && (6 <? limit)
  then nonl (ellipsize obj limit)
  else nonl obj.

Definition repr_ellipsized (obj : pyobj) (limit : Z) : pystr :=
  match obj with
  | PStr s => repr_ellipsized_str s limit
  | PBuf (Buf KMemoryView b) | PBuf (Buf KBytes b) =>
      let s := nonl (repr_bytes b) in
      if (limit <? len s) && (6 <? limit)
      then nonl (ellipsize s limit)
      else s
  | PBuf b => repr_ellipsized_str (repr_buffer b) limit
  | PObj _ r => repr_ellipsized_str r limit
  end.

Definition strtobytes (x : pyobj) : result pybytes :=
  match x with
  | PBuf (Buf KBytes b) => Ok b
  | _ =>
      match encode_latin1 (py_str x) with
      | Raise UnicodeEncodeError => encode_utf8 (py_str x)
      | r => r
      end
  end.

Definition bytestostr (x : pyobj) : pystr :=
  match x with
  | PBuf (Buf KBytes b) | PBuf (Buf KByteArray b) => decode_latin1 b
  | _ => py_str x
  end.

Definition memoryview_to_bytes (v : pyobj) : result pybytes :=
  match v with
  | PBuf (Buf KBytes b) => Ok b
  | PBuf (Buf KMemoryView b) => Ok b
  | PBuf (Buf KByteArray b) => Ok b
  | _ => strtobytes v
  end.

(** *** Vocabulary of the statements *)

(** [nonl] escapes every line feed and carriage return and changes nothing
    else. *)
Definition escape_char (c : N) : pystr :=
  if (c =? 10)%N then lit "\n"
  else if (c =? 13)%N then lit "\r"
  else [c].

Definition escape_newlines (s : pystr) : pystr := flat_map escape_char s.

Definition no_newline (s : pystr) : Prop :=
  forall c, In c s -> c <> 10%N /\ c <> 13%N.

(** [limit//2 - 2], the number of characters kept at each end. *)
Definition kept (limit : Z) : nat := Z.to_nat (limit / 2 - 2).

End StrFn.

Module Rfb.

(** *** [struct.pack] with a network-order ([!]) format *)

Inductive fmt : Type :=
| fmt_B   (* unsigned char *)
| fmt_H   (* unsigned short *)
| fmt_i.  (* int *)

Definition pack_field (f : fmt) (v : Z) : result pybytes :=
  match f with
  | fmt_B =>
      if (0 <=? v) && (v <=? 255) then Ok [byte_of_Z v]
      else Raise StructError
  | fmt_H =>
      if (0 <=? v) && (v <=? 65535)
      then Ok [byte_of_Z (Z.shiftr v 8); byte_of_Z (Z.land v 255)]
      else Raise StructError
  | fmt_i =>
      if (-2147483648 <=? v) && (v <=? 2147483647)
      then Ok [byte_of_Z (Z.land (Z.shiftr v 24) 255);
               byte_of_Z (Z.land (Z.shiftr v 16) 255);
               byte_of_Z (Z.land (Z.shiftr v 8) 255);
               byte_of_Z (Z.land v 255)]
      else Raise StructError
  end.

Fixpoint struct_pack (fs : list fmt) (vs : list Z) : result pybytes :=
  match fs, vs with
  | [], [] => Ok []
  | f :: fs', v :: vs' =>
      b <- pack_field f v ;;
      rest <- struct_pack fs' vs' ;;
      Ok (b ++ rest)
  | _, _ => Raise StructError
  end.

(** *** Images and windows *)

Record image : Type := Image { get_rowstride : Z; get_pixels : buffer }.

Definition buf_len (b : buffer) : Z := len (buf_data b).

(** [b[:stop]] is a buffer of the same type. *)
Definition buf_slice_to (b : buffer) (stop : Z) : buffer :=
  Buf (buf_kind b) (slice_to (buf_data b) stop).

Inductive window_call : Type :=
| GetImage (x y w h : Z)
| AcknowledgeChanges.

(** A window: the image it yields for a rectangle, and the calls made on it
    so far, oldest first. *)
Record window : Type := Window {
  window_image : Z -> Z -> Z -> Z -> option image;
  window_calls : list window_call
}.

Definition get_image (win : window) (x y w h : Z) : option image * window :=
  (window_image win x y w h,
   Window (window_image win) (window_calls win ++ [GetImage x y w h])).

Definition acknowledge_changes (win : window) : window :=
  Window (window_image win) (window_calls win ++ [AcknowledgeChanges]).

(** *** [rfb_encode.py] *)

Definition make_header (encoding x y w h : Z) : result pybytes :=
  fbupdate <- struct_pack [fmt_B; fmt_B; fmt_H] [0; 0; 1] ;;
  rect <- struct_pack [fmt_H; fmt_H; fmt_H; fmt_H; fmt_i] [x; y; w; h; encoding] ;;
  Ok (fbupdate ++ rect).

(** The length header of the TIGHT path, lines 46 to 53 of the file. *)
Definition tight_length_header (length : Z) : result pybytes :=
  if length <? 128 then
    struct_pack [fmt_B] [length]
  else if length <? 16383 then
    struct_pack [fmt_B; fmt_B] [128 + Z.land length 127; Z.shiftr length 7]
  else if negb (length <? 4194303) then Raise AssertionError
  else
    struct_pack [fmt_B; fmt_B; fmt_B]
      [128 + Z.land length 127;
       128 + Z.land (Z.shiftr length 7) 127;
       Z.shiftr length 14].

Section Encoders.

(** Names imported from modules outside this file: the encoding identifiers
    of [rfb_const.RFBEncoding], the chunk-join threshold of
    [xpra.net.protocol], [ImageWrapper.restride] and the JPEG encoder of
    [xpra.codecs.pillow]. *)
Variable RAW TIGHT : Z.
Variable PACKET_JOIN_SIZE : Z.
Variable restride : image -> Z -> image.
Variable encode_jpeg : image -> result buffer.

Definition raw_encode (win : window) (x y w h : Z)
  : result (option (list buffer)) * window :=
  let (img, win) := get_image win x y w h in
  let win := acknowledge_changes win in
  (match img with
   | None => Ok None
   | Some img =>
       let img :=
         if negb (get_rowstride img =? w * 4) then restride img (w * 4) else img in
       let pixels := get_pixels img in
       if negb (4 * w * h <=? buf_len pixels) then Raise AssertionError
       else
         let data := buf_slice_to pixels (4 * w * h) in
         header <- make_header RAW x y w h ;;
         if buf_len data <=? PACKET_JOIN_SIZE then
           d <- StrFn.memoryview_to_bytes (PBuf data) ;;
           Ok (Some [Buf KBytes (header ++ d)])
         else Ok (Some [Buf KBytes header; data])
   end, win).

Definition tight_encode (win : window) (x y w h : Z)
  : result (option (list buffer)) * window :=
  let (img, win) := get_image win x y w h in
  let win := acknowledge_changes win in
  (match img with
   | None => Ok None
   | Some img =>
       data <- encode_jpeg img ;;
       h0 <- make_header TIGHT x y w h ;;
       ctl <- struct_pack [fmt_B] [128 + 31] ;;
       let header := h0 ++ ctl in
       let length := buf_len data in
       lh <- tight_length_header length ;;
       let header := header ++ lh in
       if buf_len data <=? PACKET_JOIN_SIZE then
         d <- StrFn.memoryview_to_bytes (PBuf data) ;;
         Ok (Some [Buf KBytes (header ++ d)])
       else Ok (Some [Buf KBytes header; data])
   end, win).

End Encoders.

(** *** Vocabulary of the statements *)

(** The values of a byte string, and of a result holding one. *)
Definition byte_values (bs : pybytes) : list Z := map Z_of_byte bs.

Definition rmap {A B : Type} (f : A -> B) (r : result A) : result B :=
  match r with
  | Ok a => Ok (f a)
  | Raise e => Raise e
  end.

(** Big-endian fields, as the wire format describes them: an unsigned 16-bit
    field, and a signed 32-bit field in two's complement. *)
Definition u16be (v : Z) : list Z := [v / 256; v mod 256].

Definition i32be (v : Z) : list Z :=
  let u := v mod 2 ^ 32 in
  [u / 2 ^ 24; (u / 2 ^ 16) mod 256; (u / 2 ^ 8) mod 256; u mod 256].

Definition in_u16 (v : Z) : Prop := 0 <= v < 65536.
Definition in_i32 (v : Z) : Prop := - 2 ^ 31 <= v < 2 ^ 31.


(** The frame header as the interface section words it: the update count
    comes first. *)
Definition claimed_header (count encoding x y w h : Z) : list Z :=
  u16be count ++ u16be x ++ u16be y ++ u16be w ++ u16be h ++ i32be encoding.

(** A window with one image of two rows of one pixel, stored with a row
    stride of 8, and a [restride] that keeps the first bytes of each row. *)
Definition sample_pixels : pybytes :=
  [x01; x02; x03; x04; x00; x00; x00; x00; x05; x06; x07; x08; x00; x00; x00; x00].

Definition sample_window : window :=
  Window (fun _ _ w h =>
            if (w =? 1) && (h =? 2)
            then Some (Image 8 (Buf KMemoryView sample_pixels))
            else None) [].

Definition sample_restride (img : image) (rowstride : Z) : image :=
  let keep := Z.to_nat rowstride in
  let old := Z.to_nat (get_rowstride img) in
  let data := buf_data (get_pixels img) in
  Image rowstride
        (Buf (buf_kind (get_pixels img))
             (firstn keep data ++ firstn keep (skipn old data))).

End Rfb.

(** ** Packets

    A packet is a type tag followed by positional arguments. *)

#[local] Unset Elimination Schemes.
Inductive value : Type :=
| VNone
| VInt (z : Z)
| VFloat (bits : Z)
| VStr (s : pystr)
| VBytes (b : pybytes)
| VList (l : list value)
| VTuple (l : list value)
| VSet (l : list value)
| VDict (l : list (value * value)).
#[local] Set Elimination Schemes.

Record packet : Type := Packet { packet_name : string; packet_args : list value }.

Module Bridge.

(** Modelled from the spec: the callee role of the Subprocess Bridge
    ([xpra.net.subprocess_wrapper.subprocess_callee]), which is not among
    the source files; only its unit test is. Section 4.5: the callee wraps
    an object and is constructed with a name whitelist; a packet whose name
    matches a whitelisted method invokes that method on the wrapped object
    with the packet's arguments, any other packet is dropped and logged.
    The unit test says what matching is: its whitelist holds [test_signal],
    the packet that the exported signal sends is named [test-signal], and
    the test passes only if that packet invokes the method [test_signal].
    A packet is therefore looked up, and its method invoked, under its name
    with each hyphen written as an underscore. Section 3 gives the
    lifecycle of the session. *)

Inductive lifecycle : Type :=
| INIT
| STARTING
| ACTIVE
| STOPPING
| STOPPED.

(** What the callee does that the outside can observe: a method invocation
    on the wrapped object, or a line in the log. *)
Inductive effect : Type :=
| Invoke (method : string) (args : list value)
| LogDropped (name : string).

Record callee : Type := Callee {
  method_whitelist : list string;
  state : lifecycle;
  effects : list effect   (* oldest first *)
}.

Definition new_callee (whitelist : list string) : callee :=
  Callee whitelist INIT [].

Definition whitelisted (c : callee) (name : string) : bool :=
  existsb (String.eqb name) (method_whitelist c).

(** The method a packet names: its name with [-] replaced by [_]. *)
Fixpoint method_name (name : string) : string :=
  match name with
  | EmptyString => EmptyString
  | String ch rest =>
      String (if Ascii.eqb ch "-"%char then "_"%char else ch) (method_name rest)
  end.

Definition process_packet (c : callee) (p : packet) : callee :=
  let method := method_name (packet_name p) in
  if whitelisted c method
  then Callee (method_whitelist c) (state c)
              (effects c ++ [Invoke method (packet_args p)])
  else Callee (method_whitelist c) (state c)
              (effects c ++ [LogDropped (packet_name p)]).

Definition next_state (s : lifecycle) : lifecycle :=
  match s with
  | INIT => STARTING
  | STARTING => ACTIVE
  | ACTIVE => STOPPING
  | STOPPING => STOPPED
  | STOPPED => STOPPED
  end.

Definition advance (c : callee) : callee :=
  Callee (method_whitelist c) (next_state (state c)) (effects c).

(** One step of a session: a packet is received, or the lifecycle moves on. *)
Inductive step : callee -> callee -> Prop :=
| step_packet (c : callee) (p : packet) : step c (process_packet c p)
| step_lifecycle (c : callee) : step c (advance c).

Inductive reachable (whitelist : list string) : callee -> Prop :=
| reach_new : reachable whitelist (new_callee whitelist)
| reach_step (c c' : callee) :
    reachable whitelist c -> step c c' -> reachable whitelist c'.

(** *** Vocabulary of the statements *)

(** The packets of [packets] received one after the other. *)
Definition receive (c : callee) (packets : list packet) : callee :=
  fold_left process_packet packets c.

(** The packet names, hyphens as underscores, a method of [whitelist]. *)
Definition allowed (whitelist : list string) (p : packet) : bool :=
  existsb (String.eqb (method_name (packet_name p))) whitelist.

Definition is_invoke (e : effect) : bool :=
  match e with
  | Invoke _ _ => true
  | LogDropped _ => false
  end.

(** The invocations made on the wrapped object, and the lines logged. *)
Definition invocations (es : list effect) : list effect := filter is_invoke es.

Definition logged (es : list effect) : list effect :=
  filter (fun e => negb (is_invoke e)) es.

(** The whitelist of the unit test, and the packet its exported signal
    sends. *)
Definition test_whitelist : list string := ["test_signal"; "loop_stop"; "unused"].

Definition test_signal_packet : packet :=
  Packet "test-signal" [VBytes [x68; x65; x6c; x6c; x6f; x20; x66; x6f; x6f]].

End Bridge.

Module NetworkState.

(** Modelled from the spec: the [bandwidth-limit] and [connection-data]
    packet handlers of the Network Health Monitor
    ([xpra.server.mixins.networkstate] and
    [xpra.server.source.networkstate]), which are not among the source
    files; only their unit test is. Section 4.4: the requested value must be
    a non-negative integer, any other payload fails with a TypeError and
    does not alter state; the effective limit is the minimum of the request
    and the process-wide cap. A [connection-data] payload must be a
    mapping. *)

Record source : Type := Source {
  process_wide_cap : Z;      (* fixed at startup *)
  bandwidth_limit : Z        (* the effective limit, "setting" in get_info *)
}.

Definition process_bandwidth_limit (ss : source) (payload : value) : result source :=
  match payload with
  | VInt requested =>
      if requested <? 0 then Raise TypeError
      else Ok (Source (process_wide_cap ss) (Z.min requested (process_wide_cap ss)))
  | _ => Raise TypeError
  end.

Definition process_connection_data (ss : source) (payload : value) : result source :=
  match payload with
  | VDict _ => Ok ss
  | _ => Raise TypeError
  end.

(** The handler of one packet: the new state, or the error raised. A packet
    that lacks the argument fails validation like one with a wrong
    argument. *)
Definition process_packet (ss : source) (p : packet) : result source :=
  if String.eqb (packet_name p) "bandwidth-limit" then
    match packet_args p with
    | payload :: _ => process_bandwidth_limit ss payload
    | [] => Raise TypeError
    end
  else if String.eqb (packet_name p) "connection-data" then
    match packet_args p with
    | payload :: _ => process_connection_data ss payload
    | [] => Raise TypeError
    end
  else Ok ss.

(** The session keeps its state when a handler raises: the error is local
    to the packet (section 7). *)
Definition handle_packet (ss : source) (p : packet) : source * option exn :=
  match process_packet ss p with
  | Ok ss' => (ss', None)
  | Raise e => (ss, Some e)
  end.

Definition get_limit (ss : source) : Z := bandwidth_limit ss.

(** *** Vocabulary of the statements *)

Definition bandwidth_limit_packet (payload : value) : packet :=
  Packet "bandwidth-limit" [payload].

(** The payloads that are not a non-negative integer. *)
Definition not_a_limit (payload : value) : Prop :=
  forall z : Z, payload = VInt z -> z < 0.

Definition handle_packets (ss : source) (ps : list packet) : source :=
  fold_left (fun s p => fst (handle_packet s p)) ps ss.

End NetworkState.


Module StrFnMore.
Import StrFn.

(** *** More of [str_fn.py] *)

(** An argument that may be [None]. *)
Inductive pyarg : Type :=
| ANone
| AObj (x : pyobj).

Definition is_empty {A : Type} (l : list A) : bool :=
  match l with
  | [] => true
  | _ => false
  end.

(** [bytestostr] on such an argument: [str(None)] is ["None"]. *)
Definition bytestostr_arg (v : pyarg) : pystr :=
  match v with
  | ANone => lit "None"
  | AObj x => bytestostr x
  end.

(** [binascii.hexlify]: two lower-case hexadecimal digits per byte. *)
Definition hexlify (b : pybytes) : pybytes :=
  flat_map (fun x => [byte_of_N (hexdigit (Byte.to_N x / 16));
                      byte_of_N (hexdigit (Byte.to_N x mod 16))]) b.

Definition hexstr (v : pyobj) : result pystr :=
  b <- memoryview_to_bytes v ;;
  Ok (bytestostr (PBuf (Buf KBytes (hexlify b)))).

(** [b.decode("utf8")], on the values of the bytes; [None] is
    UnicodeDecodeError.  The decoder is strict: a sequence is taken only if
    its continuation bytes are in [0x80..0xBF] and the code point it gives
    needs that many bytes, is no surrogate and is at most [0x10FFFF]. *)
Definition is_cont (b : N) : bool := ((128 <=? b) && (b <? 192))%N.

Fixpoint decode_utf8 (b : list N) : option pystr :=
  match b with
  | [] => Some []
  | b0 :: r0 =>
      if (b0 <? 128)%N then option_map (cons b0) (decode_utf8 r0)
      else if (b0 <? 192)%N then None
      else if (b0 <? 224)%N then
        match r0 with
        | b1 :: r1 =>
            let c := ((b0 - 192) * 64 + (b1 - 128))%N in
            if is_cont b1 && (128 <=? c)%N
            then option_map (cons c) (decode_utf8 r1)
            else None
        | _ => None
        end
      else if (b0 <? 240)%N then
        match r0 with
        | b1 :: b2 :: r2 =>
            let c := ((b0 - 224) * 4096 + (b1 - 128) * 64 + (b2 - 128))%N in
            if is_cont b1 && is_cont b2 && (2048 <=? c)%N
               && negb ((55296 <=? c) && (c <=? 57343))%N
            then option_map (cons c) (decode_utf8 r2)
            else None
        | _ => None
        end
      else if (b0 <? 248)%N then
        match r0 with
        | b1 :: b2 :: b3 :: r3 =>
            let c := ((b0 - 240) * 262144 + (b1 - 128) * 4096
                      + (b2 - 128) * 64 + (b3 - 128))%N in
            if is_cont b1 && is_cont b2 && is_cont b3
               && (65536 <=? c)%N && (c <? 1114112)%N
            then option_map (cons c) (decode_utf8 r3)
            else None
        | _ => None
        end
      else None
  end.

(** [decode_str], with the default [try_encoding]: only [bytes] and
    [bytearray] have a [decode]. *)
Definition decode_str (x : pyobj) : pystr :=
  match x with
  | PBuf (Buf KBytes b) | PBuf (Buf KByteArray b) =>
      match decode_utf8 (map Byte.to_N b) with
      | Some s => s
      | None => bytestostr x
      end
  | _ => bytestostr x
  end.

Section Unicode.

(** [str.isalnum] on one character follows the interpreter's Unicode
    tables. *)
Variable isalnum : N -> bool.

(** [OBSCURE_PASSWORDS], read from the environment on each call. *)
Variable OBSCURE_PASSWORDS : bool.

(** [bool(x)] for an object that is neither a [str] nor a buffer, as its
    [__bool__] or [__len__] gives it: false for [0], [0.0], [False] and the
    empty containers. *)
Variable obj_bool : pystr -> pystr -> bool.

(** The truth value of an argument: [None], the empty [str] and the empty
    buffers are false. *)
Definition truthy (v : pyarg) : bool :=
  match v with
  | ANone => false
  | AObj (PStr s) => negb (is_empty s)
  | AObj (PBuf b) => negb (is_empty (buf_data b))
  | AObj (PObj str_ repr_) => obj_bool str_ repr_
  end.

Definition std (v : pyarg) (extras : pystr) : pystr :=
  let f c := isalnum c || existsb (N.eqb c) extras in
  filter f (bytestostr_arg (if truthy v then v else AObj (PStr []))).

Definition alnum (v : pyarg) : pystr :=
  filter isalnum (bytestostr_arg v).


End Unicode.

(** *** Vocabulary of the statements *)

Definition is_newline (c : N) : bool := (c =? 10)%N || (c =? 13)%N.

Definition count_newlines (s : pystr) : Z := len (filter is_newline s).

(** A code point that UTF-8 cannot encode: a surrogate, or none at all. *)
Definition unencodable (c : N) : Prop :=
  (55296 <= c <= 57343)%N \/ (1114112 <= c)%N.

Definition is_hexdigit (c : N) : Prop := In c (lit "0123456789abcdef").

(** The two digits [hexstr] writes for a byte, and the value of a digit. *)
Definition hexpair (x : byte) : pystr :=
  [hexdigit (Byte.to_N x / 16); hexdigit (Byte.to_N x mod 16)]%N.

Definition unhex (c : N) : N := (if c <? 58 then c - 48 else c - 87)%N.

End StrFnMore.

Module RfbMore.
Import Rfb.

(** *** Vocabulary of the statements *)

(** The bytes a list of chunks puts on the wire. *)
Definition wire (chunks : list buffer) : pybytes :=
  concat (map buf_data chunks).

(** How a receiver reads the length header of the TIGHT path back from the
    front of a byte stream: a byte of 128 or more says that another byte
    follows, up to three bytes. The result is the length and what follows
    the header. *)
Definition read_compact_length (bs : list Z) : option (Z * list Z) :=
  match bs with
  | [] => None
  | b0 :: rest0 =>
      if b0 <? 128 then Some (b0, rest0)
      else
        match rest0 with
        | [] => None
        | b1 :: rest1 =>
            if b1 <? 128 then Some ((b0 - 128) + 128 * b1, rest1)
            else
              match rest1 with
              | [] => None
              | b2 :: rest2 => Some ((b0 - 128) + 128 * (b1 - 128) + 16384 * b2, rest2)
              end
        end
  end.

(** The values of the bytes of the length header, by the arithmetic of the
    code. *)
Definition compact_length (L : Z) : list Z :=
  if L <? 128 then [L]
  else if L <? 16383 then [128 + L mod 128; L / 128]
  else [128 + L mod 128; 128 + (L / 128) mod 128; L / 16384].

(** [struct.calcsize] of a format. *)
Definition fmt_size (f : fmt) : nat :=
  match f with
  | fmt_B => 1
  | fmt_H => 2
  | fmt_i => 4
  end.

Definition calcsize (fs : list fmt) : nat :=
  fold_right (fun f n => (fmt_size f + n)%nat) O fs.

Definition all_in_range (encoding x y w h : Z) : Prop :=
  in_u16 x /\ in_u16 y /\ in_u16 w /\ in_u16 h /\ in_i32 encoding.

End RfbMore.

Module FilePrint.
Import StrFn.

(** *** [xpra/server/source/fileprint.py] *)

Definition is_empty_str (s : pystr) : bool :=
  match s with
  | [] => true
  | _ => false
  end.

Definition str_eqb (a b : pystr) : bool :=
  if list_eq_dec N.eq_dec a b then true else false.

(** A [dict] with [str] keys, in insertion order; keys occur once. *)
Definition dict (V : Type) : Type := list (pystr * V).

Fixpoint dict_get {V : Type} (d : dict V) (k : pystr) : option V :=
  match d with
  | [] => None
  | (k', v) :: rest => if str_eqb k k' then Some v else dict_get rest k
  end.

(** [d.pop(k, None)], for the dictionary it leaves. *)
Definition dict_pop {V : Type} (d : dict V) (k : pystr) : dict V :=
  filter (fun kv => negb (str_eqb k (fst kv))) d.

(** [d[k] = v] *)
Fixpoint dict_set {V : Type} (d : dict V) (k : pystr) (v : V) : dict V :=
  match d with
  | [] => [(k, v)]
  | (k', v') :: rest =>
      if str_eqb k k' then (k, v) :: rest else (k', v') :: dict_set rest k v
  end.

Definition dict_keys {V : Type} (d : dict V) : list pystr := map fst d.

Definition dict_has {V : Type} (d : dict V) (k : pystr) : bool :=
  existsb (str_eqb k) (dict_keys d).

(** A [set] of [str], in the order in which it is iterated. *)
Definition set_has (s : list pystr) (k : pystr) : bool := existsb (str_eqb k) s.

Definition set_add (s : list pystr) (k : pystr) : list pystr :=
  if set_has s k then s else s ++ [k].

Definition set_remove (s : list pystr) (k : pystr) : list pystr :=
  filter (fun x => negb (str_eqb k x)) s.

(** [x.startswith(prefix)] *)
Definition startswith (x prefix : pystr) : bool := starts_with prefix x.

Fixpoint first_under (dirs paths : list pystr) : option pystr :=
  match dirs with
  | [] => None
  | d :: dirs' =>
      match find (fun x => startswith x (lit "/" ++ d)) paths with
      | Some x => Some x
      | None => first_under dirs' paths
      end
  end.

Definition choose_socket_path (unix_socket_paths : list pystr) : result pystr :=
  match unix_socket_paths with
  | [] => Raise AssertionError
  | first :: _ =>
      match first_under [lit "run"; lit "var"; lit "tmp"] unix_socket_paths with
      | Some x => Ok x
      | None => Ok first
      end
  end.

(** What [add_printer] of [xpra.platform.pycups_printing] does with the
    callback it is given: it calls it before it returns, or later, or it
    raises. *)
Inductive add_outcome : Type :=
| AddedNow
| AddedLater
| AddFailed.

(** The [auth] argument of [set_printers]: nothing, something that does not
    unpack into four items with options to look up, or the file its options
    name. *)
Inductive auth_arg : Type :=
| NoAuth
| BadAuth
| Auth (file : option pystr).

Section Mixin.

(** A printer's definition, compared with [==] and read through
    [typedict.strget]. *)
Variable props : Type.
Variable props_eq : props -> props -> bool.
Variable strget : props -> pystr -> option pystr -> option pystr.

(** The environment: [get_machine_id()], [XPRA_ADD_LOCAL_PRINTERS],
    [XPRA_PRINTER_LOCATION_STRING], [DISPLAY], and
    [os.path.abspath(os.path.expanduser(...))]. *)
Variable get_machine_id : pystr.
Variable ADD_LOCAL_PRINTERS : bool.
Variable PRINTER_LOCATION_STRING : pystr.
Variable DISPLAY : option pystr.
Variable makeabs : pystr -> pystr.

(** The calls made on the printing backend. *)
Inductive cups_call : Type :=
| AddPrinter (printer : pystr) (p : props) (info : option pystr)
             (location : pystr) (attrs : dict (option pystr))
| RemovePrinter (printer : pystr).

(** [add_printer], from the calls the backend has had, this one last. *)
Variable add_printer : list cups_call -> add_outcome.

Record mixin : Type := Mixin {
  printers : dict props;
  printers_added : list pystr;
  machine_id : pystr;
  uuid : pystr;
  hostname : pystr;
  unix_socket_paths : list pystr;
  cups : list cups_call          (* oldest first *)
}.

Definition set_state (st : mixin) (ps : dict props) (added : list pystr)
           (calls : list cups_call) : mixin :=
  Mixin ps added (machine_id st) (uuid st) (hostname st) (unix_socket_paths st) calls.

Definition init_state (st : mixin) : mixin :=
  Mixin [] [] [] (uuid st) (hostname st) (unix_socket_paths st) (cups st).

(** [parse_client_caps], for the machine id it reads from the
    capabilities. *)
Definition parse_client_caps (st : mixin) (client_machine_id : pystr) : mixin :=
  Mixin (printers st) (printers_added st) client_machine_id (uuid st) (hostname st)
        (unix_socket_paths st) (cups st).

Definition is_local (st : mixin) : bool :=
  str_eqb (machine_id st) get_machine_id && negb ADD_LOCAL_PRINTERS.

Definition remove_printer (st : mixin) (printer : pystr) : mixin :=
  if set_has (printers_added st) printer then
    set_state st (printers st) (set_remove (printers_added st) printer)
              (cups st ++ [RemovePrinter printer])
  else st.

Definition remove_printers (st : mixin) : mixin :=
  if is_local st then st
  else
    let st := set_state st [] (printers_added st) (cups st) in
    fold_left remove_printer (printers_added st) st.

Definition cleanup (st : mixin) : mixin := remove_printers st.

(** The callback [printer_added] of [setup_printer]. *)
Definition printer_added (st : mixin) (printer : pystr) (p : props) : mixin :=
  set_state st (dict_set (printers st) printer p)
            (set_add (printers_added st) printer) (cups st).

Definition location_of (st : mixin) : pystr :=
  if is_empty_str (hostname st) then PRINTER_LOCATION_STRING
  else if is_empty_str PRINTER_LOCATION_STRING then lit "on %s"
  else lit "on " ++ hostname st ++ lit " (" ++ PRINTER_LOCATION_STRING ++ lit ")".

Definition setup_printer (st : mixin) (printer : pystr) (p : props)
           (attributes : dict (option pystr)) : mixin :=
  let info := strget p (lit "printer-info") (Some []) in
  let attrs := dict_set attributes (lit "remote-printer") (Some printer) in
  let attrs := dict_set attrs (lit "remote-device-uri") (strget p (lit "device-uri") None) in
  let location := location_of st in
  let st := set_state st (printers st) (printers_added st)
                      (cups st ++ [AddPrinter printer p info location attrs]) in
  match add_printer (cups st) with
  | AddedNow => printer_added st printer p
  | AddedLater => st
  | AddFailed => st
  end.

(** The first loop of [set_printers]: a printer that is defined as before
    is taken out of the argument; one that is gone or defined otherwise is
    taken out of [self.printers] and removed. *)
Definition drop_changed (acc : mixin * dict props) (k : pystr) : mixin * dict props :=
  let (st, arg) := acc in
  let same :=
    match dict_get (printers st) k, dict_get arg k with
    | Some cpd, Some npd => props_eq cpd npd
    | None, None => true
    | _, _ => false
    end in
  if same then (st, dict_pop arg k)
  else
    (remove_printer (set_state st (dict_pop (printers st) k) (printers_added st) (cups st)) k,
     arg).

Definition truthy_str (s : option pystr) : bool :=
  match s with
  | Some (_ :: _) => true
  | _ => false
  end.

Definition printer_attributes (st : mixin) (password_file : list pystr) (auth : auth_arg)
           (encryption encryption_keyfile : option pystr) : dict (option pystr) :=
  let attributes := [(lit "display", DISPLAY); (lit "source", Some (uuid st))] in
  let attributes :=
    match auth with
    | NoAuth => attributes
    | _ =>
        let auth_password_file :=
          match auth with
          | Auth file => file
          | _ => None
          end in
        match truthy_str auth_password_file, auth_password_file, password_file with
        | true, Some f, _ => dict_set attributes (lit "password-file") (Some (makeabs f))
        | _, _, f :: _ => dict_set attributes (lit "password-file") (Some (makeabs f))
        | _, _, [] => attributes
        end
    end in
  let attributes :=
    match truthy_str encryption, encryption, truthy_str encryption_keyfile, encryption_keyfile with
    | true, Some e, true, Some kf =>
        dict_set (dict_set attributes (lit "encryption") (Some e))
                 (lit "encryption-keyfile") (Some (makeabs kf))
    | _, _, _, _ => attributes
    end in
  match choose_socket_path (unix_socket_paths st) with
  | Ok path => dict_set attributes (lit "socket-path") (Some path)
  | Raise _ => attributes
  end.

Definition add_new (attributes : dict (option pystr)) (st : mixin) (kv : pystr * props)
  : mixin :=
  if dict_has (printers st) (fst kv) then st
  else setup_printer st (fst kv) (snd kv) attributes.

(** [set_printers]: the new state, and the argument [printers] as the call
    leaves it. *)
Definition set_printers (st : mixin) (arg : dict props) (password_file : list pystr)
           (auth : auth_arg) (encryption encryption_keyfile : option pystr)
  : mixin * dict props :=
  if is_local st then (set_state st arg (printers_added st) (cups st), arg)
  else if is_empty_str (uuid st) then (st, arg)
  else
    let (st, arg) := fold_left drop_changed (dict_keys (printers st)) (st, arg) in
    let attributes := printer_attributes st password_file auth encryption encryption_keyfile in
    (fold_left (add_new attributes) arg st, arg).

End Mixin.

Arguments AddPrinter {props} printer p info location attrs.
Arguments RemovePrinter {props} printer.
Arguments Mixin {props}.
Arguments printers {props} m.
Arguments printers_added {props} m.
Arguments machine_id {props} m.
Arguments uuid {props} m.
Arguments hostname {props} m.
Arguments unix_socket_paths {props} m.
Arguments cups {props} m.
Arguments set_state {props} st ps added calls.
Arguments init_state {props} st.
Arguments parse_client_caps {props} st client_machine_id.
Arguments is_local {props} get_machine_id ADD_LOCAL_PRINTERS st.
Arguments remove_printer {props} st printer.
Arguments remove_printers {props} get_machine_id ADD_LOCAL_PRINTERS st.
Arguments cleanup {props} get_machine_id ADD_LOCAL_PRINTERS st.
Arguments printer_added {props} st printer p.
Arguments location_of {props} PRINTER_LOCATION_STRING st.
Arguments setup_printer {props} strget PRINTER_LOCATION_STRING add_printer st printer p attributes.
Arguments drop_changed {props} props_eq acc k.
Arguments printer_attributes {props} DISPLAY makeabs st password_file auth encryption
  encryption_keyfile.
Arguments add_new {props} strget PRINTER_LOCATION_STRING add_printer attributes st kv.
Arguments set_printers {props} props_eq strget get_machine_id ADD_LOCAL_PRINTERS
  PRINTER_LOCATION_STRING DISPLAY makeabs add_printer st arg password_file auth encryption
  encryption_keyfile.

End FilePrint.

Module FilePrintSpec.
Import StrFn FilePrint.

(** *** Vocabulary of the statements *)

(** The rank of a socket path: 0 under [/run], 1 under [/var], 2 under
    [/tmp], 3 anywhere else. *)
Definition path_rank (p : pystr) : nat :=
  if startswith p (lit "/run") then 0
  else if startswith p (lit "/var") then 1
  else if startswith p (lit "/tmp") then 2
  else 3.

Section Changes.

Variable props : Type.
Variable props_eq : props -> props -> bool.

(** The printer [k] is defined in [old] and in [new], and the same in
    both. *)
Definition unchanged (old new : dict props) (k : pystr) : bool :=
  match dict_get old k, dict_get new k with
  | Some cpd, Some npd => props_eq cpd npd
  | _, _ => false
  end.

(** The printers of [old] that [new] defines otherwise or not at all, among
    those in the set [added]. *)
Definition to_remove (old new : dict props) (added : list pystr) : list pystr :=
  filter (fun k => set_has added k && negb (unchanged old new k)) (dict_keys old).

(** The entries of [new] that [old] does not hold as they are. *)
Definition to_add (old new : dict props) : dict props :=
  filter (fun kv => negb (unchanged old new (fst kv))) new.

(** The call [c] asks the backend to add the printer of the entry [kv] for
    the client of [st]. *)
Definition adds_printer (PRINTER_LOCATION_STRING : pystr) (st : mixin props)
           (kv : pystr * props) (c : cups_call props) : Prop :=
  exists info attrs,
    c = AddPrinter (fst kv) (snd kv) info (location_of PRINTER_LOCATION_STRING st) attrs.

End Changes.

Arguments adds_printer {props} PRINTER_LOCATION_STRING st kv c.
Arguments unchanged {props} props_eq old new k.
Arguments to_remove {props} props_eq old new added.
Arguments to_add {props} props_eq old new.

Section Calls.

Variable props : Type.
Variable props_eq : props -> props -> bool.
Variable strget : props -> pystr -> option pystr -> option pystr.
Variable get_machine_id : pystr.
Variable ADD_LOCAL_PRINTERS : bool.
Variable PRINTER_LOCATION_STRING : pystr.
Variable DISPLAY : option pystr.
Variable makeabs : pystr -> pystr.
Variable add_printer : list (cups_call props) -> add_outcome.

(** The calls made on the mixin. *)
Inductive mixin_call : Type :=
| ParseClientCaps (client_machine_id : pystr)
| SetPrinters (printers : dict props) (password_file : list pystr) (auth : auth_arg)
              (encryption encryption_keyfile : option pystr)
| RemovePrinters
| Cleanup.

Definition apply_call (st : mixin props) (c : mixin_call) : mixin props :=
  match c with
  | ParseClientCaps m => parse_client_caps st m
  | SetPrinters arg password_file auth encryption encryption_keyfile =>
      fst (set_printers props_eq strget get_machine_id ADD_LOCAL_PRINTERS
                        PRINTER_LOCATION_STRING DISPLAY makeabs add_printer
                        st arg password_file auth encryption encryption_keyfile)
  | RemovePrinters => remove_printers get_machine_id ADD_LOCAL_PRINTERS st
  | Cleanup => cleanup get_machine_id ADD_LOCAL_PRINTERS st
  end.

(** The callbacks [printer_added] that [add_printer] has kept to run
    later, one for each call of [new] that it deferred; [before] holds the
    calls made before those of [new]. *)
Fixpoint deferred_from (before new : list (cups_call props)) : list (pystr * props) :=
  match new with
  | [] => []
  | c :: rest =>
      match c with
      | AddPrinter k p _ _ _ =>
          match add_printer (before ++ [c]) with
          | AddedLater => [(k, p)]
          | _ => []
          end
      | RemovePrinter _ => []
      end ++ deferred_from (before ++ [c]) rest
  end.

(** The mixin together with the callbacks that have yet to run. *)
Record world : Type := World {
  mx : mixin props;
  pending : list (pystr * props)
}.

(** What happens to the mixin: a call is made on it, or the pending
    callback at index [n] runs, once. *)
Inductive event : Type :=
| Call (c : mixin_call)
| PrinterAdded (n : nat).

Definition apply_event (w : world) (e : event) : world :=
  match e with
  | Call c =>
      let st' := apply_call (mx w) c in
      World st'
            (pending w ++
             deferred_from (cups (mx w)) (skipn (length (cups (mx w))) (cups st')))
  | PrinterAdded n =>
      match nth_error (pending w) n with
      | Some (k, p) =>
          World (printer_added (mx w) k p)
                (firstn n (pending w) ++ skipn (S n) (pending w))
      | None => w
      end
  end.

Definition run_events (events : list event) (w : world) : world :=
  fold_left apply_event events w.

(** The additions asked of the backend that no removal has been set
    against, one name for each, after the calls of [trace] on a backend
    that had [credit]. *)
Fixpoint remove_one (k : pystr) (l : list pystr) : list pystr :=
  match l with
  | [] => []
  | x :: rest => if str_eqb k x then rest else x :: remove_one k rest
  end.

Fixpoint credit_after (credit : list pystr) (trace : list (cups_call props)) : list pystr :=
  match trace with
  | [] => credit
  | AddPrinter k _ _ _ _ :: rest => credit_after (k :: credit) rest
  | RemovePrinter k :: rest => credit_after (remove_one k credit) rest
  end.

(** Every removal in [trace] is set against an addition of the same
    printer asked before it, each addition against one removal at most. *)
Fixpoint removals_covered (credit : list pystr) (trace : list (cups_call props)) : bool :=
  match trace with
  | [] => true
  | AddPrinter k _ _ _ _ :: rest => removals_covered (k :: credit) rest
  | RemovePrinter k :: rest =>
      set_has credit k && removals_covered (remove_one k credit) rest
  end.

Definition occurrences (k : pystr) (l : list pystr) : nat :=
  length (filter (str_eqb k) l).

(** What the events keep true: the removals are covered, and for each
    printer the additions left cover its membership of [printers_added]
    and the callbacks that have yet to run for it. *)
Definition accounted (w : world) : Prop :=
  removals_covered [] (cups (mx w)) = true /\
  (forall k,
      (if set_has (printers_added (mx w)) k then 1 else 0) +
      occurrences k (map fst (pending w)) <=
      occurrences k (credit_after [] (cups (mx w))))%nat.

(** A step of the mixin that only adds calls to the trace and keeps
    [accounted] with the callbacks its calls deferred. *)
Definition extends (st st' : mixin props) : Prop :=
  exists t,
    cups st' = cups st ++ t /\
    (forall pend,
        accounted (World st pend) ->
        accounted (World st' (pend ++ deferred_from (cups st) t))).

End Calls.

Arguments ParseClientCaps {props} client_machine_id.
Arguments SetPrinters {props} printers password_file auth encryption encryption_keyfile.
Arguments RemovePrinters {props}.
Arguments Cleanup {props}.
Arguments apply_call {props} props_eq strget get_machine_id ADD_LOCAL_PRINTERS
  PRINTER_LOCATION_STRING DISPLAY makeabs add_printer st c.
Arguments deferred_from {props} add_printer before new.
Arguments World {props} mx pending.
Arguments mx {props} w.
Arguments pending {props} w.
Arguments Call {props} c.
Arguments PrinterAdded {props} n.
Arguments apply_event {props} props_eq strget get_machine_id ADD_LOCAL_PRINTERS
  PRINTER_LOCATION_STRING DISPLAY makeabs add_printer w e.
Arguments run_events {props} props_eq strget get_machine_id ADD_LOCAL_PRINTERS
  PRINTER_LOCATION_STRING DISPLAY makeabs add_printer events w.
Arguments credit_after {props} credit trace.
Arguments removals_covered {props} credit trace.
Arguments accounted {props} w.
Arguments extends {props} add_printer st st'.

End FilePrintSpec.


Module Signals.
Import StrFn.

(** *** [xpra/gtk/signals.py] *)

(** A [dict] with [int] keys. *)
Fixpoint int_get {V : Type} (d : list (Z * V)) (k : Z) : option V :=
  match d with
  | [] => None
  | (k', v) :: rest => if k =? k' then Some v else int_get rest k
  end.

Fixpoint int_set {V : Type} (d : list (Z * V)) (k : Z) (v : V) : list (Z * V) :=
  match d with
  | [] => [(k, v)]
  | (k', v') :: rest =>
      if k =? k' then (k, v) :: rest else (k', v') :: int_set rest k v
  end.

Section Glib.

(** The callables given as [callback]. *)
Variable callback : Type.

Variable POSIX : bool.

(** The source id [glib.unix_signal_add] returns, from the ids of the
    sources attached at the time. *)
Variable unix_signal_add_id : list N -> N.

(** The closures [handle_signal] and [os_signal]: what they hold of the
    call that made them. *)
Record handler : Type := Handler {
  h_callback : callback;
  h_commandtype : pystr;
  h_signum : Z
}.

(** [_glib_unix_signals], the sources attached to the main context, each
    with its id and watching the signal of its handler, and the handlers
    installed with [signal.signal]. *)
Record state : Type := State {
  glib_unix_signals : list (Z * N);
  sources : list (N * handler);
  os_handlers : list (Z * handler)
}.

Definition init : state := State [] [] [].

(** [glib.source_remove(id)] *)
Definition source_remove (id : N) (srcs : list (N * handler)) : list (N * handler) :=
  filter (fun s => negb (fst s =? id)%N) srcs.

Definition register_os_signal (cb : callback) (commandtype : pystr) (signum : Z)
           (st : state) : state :=
  let h := Handler cb commandtype signum in
  if POSIX then
    let current := int_get (glib_unix_signals st) signum in
    let srcs :=
      match current with
      | Some id => if (id =? 0)%N then sources st else source_remove id (sources st)
      | None => sources st
      end in
    let source_id := unix_signal_add_id (map fst srcs) in
    State (int_set (glib_unix_signals st) signum source_id)
          (srcs ++ [(source_id, h)])
          (os_handlers st)
  else
    State (glib_unix_signals st) (sources st) (int_set (os_handlers st) signum h).

Definition register_os_signals (cb : callback) (commandtype : pystr) (signals : list Z)
           (st : state) : state :=
  fold_left (fun st signum => register_os_signal cb commandtype signum st) signals st.

(** *** Vocabulary of the statements *)

(** The handlers that run when the signal [signum] arrives: those of the
    sources watching it, or the one installed with [signal.signal]. *)
Definition handlers_of (signum : Z) (st : state) : list handler :=
  if POSIX then
    filter (fun h => h_signum h =? signum) (map snd (sources st))
  else
    match int_get (os_handlers st) signum with
    | Some h => [h]
    | None => []
    end.

(** [_glib_unix_signals] and the sources agree: the sources have distinct
    ids, none of them 0, each is the one recorded for the signal it
    watches, and each id recorded is the id of a source watching that
    signal. *)
Definition consistent (st : state) : Prop :=
  NoDup (map fst (sources st)) /\
  (forall id h, In (id, h) (sources st) ->
                int_get (glib_unix_signals st) (h_signum h) = Some id /\ id <> 0%N) /\
  (forall signum id, int_get (glib_unix_signals st) signum = Some id ->
                     exists h, In (id, h) (sources st) /\ h_signum h = signum).

(** A sequence of calls of [register_os_signals], oldest first. *)
Definition call : Type := callback * pystr * list Z.

Definition run (calls : list call) (st : state) : state :=
  fold_left (fun st c => register_os_signals (fst (fst c)) (snd (fst c)) (snd c) st)
            calls st.

(** The last call that registered [signum], if any. *)
Definition last_call (signum : Z) (calls : list call) : option call :=
  find (fun c => existsb (Z.eqb signum) (snd c)) (rev calls).

End Glib.

Arguments Handler {callback} h_callback h_commandtype h_signum.
Arguments h_callback {callback} h.
Arguments h_commandtype {callback} h.
Arguments h_signum {callback} h.
Arguments State {callback} glib_unix_signals sources os_handlers.
Arguments glib_unix_signals {callback} s.
Arguments sources {callback} s.
Arguments os_handlers {callback} s.
Arguments init {callback}.
Arguments source_remove {callback} id srcs.
Arguments register_os_signal {callback} POSIX unix_signal_add_id cb commandtype signum st.
Arguments register_os_signals {callback} POSIX unix_signal_add_id cb commandtype signals st.
Arguments handlers_of {callback} POSIX signum st.
Arguments consistent {callback} st.
Arguments run {callback} POSIX unix_signal_add_id calls st.
Arguments last_call {callback} signum calls.

End Signals.

Module Gstreamer.
Import StrFn FilePrint.

(** *** [xpra/gtk/configure/gstreamer.py] *)

(** [enumerate(l)] *)
Definition enumerate {A : Type} (l : list A) : list (nat * A) :=
  combine (seq 0 (length l)) l.

(** [_set_labels_text], on the texts of the widgets. *)
Definition _set_labels_text (widgets : list pystr) (messages : list pystr) : list pystr :=
  map (fun iw =>
         if (fst iw <? length messages)%nat then nth (fst iw) messages [] else [])
      (enumerate widgets).

(** A check button of [configure_shadow], with its [_backend]. *)
Record button : Type := Button {
  backend : pystr;
  sensitive : bool;
  active : bool
}.

Definition set_active (b : button) (v : bool) : button :=
  Button (backend b) (sensitive b) v.

(** [self.buttons] and the sensitivity of the confirm button. *)
Record shadow_gui : Type := ShadowGui {
  buttons : list button;
  confirm_sensitive : bool
}.

(** [has], over [self.elements]. *)
Definition has (elements els : list pystr) : bool :=
  forallb (fun el => set_has elements el) els.

(** [configure_shadow], for the buttons it makes; [None] is the
    RuntimeError of an unsupported platform. *)
Definition configure_shadow (POSIX OSX : bool) (elements : list pystr)
           (current_setting : option pystr) : option shadow_gui :=
  if POSIX && negb OSX then
    let options :=
      [(true, lit "auto");
       (has elements [lit "ximagesrc"], lit "X11");
       (has elements [lit "pipewiresrc"], lit "pipewire")] in
    let btn o :=
      Button (snd o) (fst o)
             match current_setting with
             | Some c => str_eqb (snd o) c
             | None => false
             end in
    Some (ShadowGui (map btn options) false)
  else None.

(** [option_toggled], for the button at index [i] of [self.buttons].  The
    handlers that [set_active(False)] runs for the buttons it switches off
    find their own button inactive and set only the sensitivity, which the
    last line sets again. *)
Definition option_toggled (i : nat) (g : shadow_gui) : shadow_gui :=
  let bs :=
    match nth_error (buttons g) i with
    | Some toggled_btn =>
        if active toggled_btn then
          map (fun jb => if (fst jb =? i)%nat then snd jb else set_active (snd jb) false)
              (enumerate (buttons g))
        else buttons g
    | None => buttons g
    end in
  ShadowGui bs (existsb active bs).

Inductive save_outcome : Type :=
| Saved (setting : pystr)
| AssertionFailed
| InvalidBackend (setting : pystr).

Section Save.

(** [str.lower] and the keys of [SHADOW_OPTIONS]. *)
Variable lower : pystr -> pystr.
Variable backends : list pystr.

Definition save_shadow (g : shadow_gui) : save_outcome :=
  match filter active (buttons g) with
  | [b] =>
      let setting := lower (backend b) in
      if set_has backends setting then Saved setting else InvalidBackend setting
  | _ => AssertionFailed
  end.

End Save.

(** *** Vocabulary of the statements *)

(** A click on the check button at index [i]: the toolkit flips the button
    and emits [toggled], which runs [option_toggled]. *)
Definition click (i : nat) (g : shadow_gui) : shadow_gui :=
  match nth_error (buttons g) i with
  | Some b =>
      option_toggled i
        (ShadowGui
           (map (fun jb => if (fst jb =? i)%nat
                           then set_active (snd jb) (negb (active (snd jb)))
                           else snd jb)
                (enumerate (buttons g)))
           (confirm_sensitive g))
  | None => g
  end.

Definition clicks (l : list nat) (g : shadow_gui) : shadow_gui :=
  fold_left (fun g i => click i g) l g.

(** What [option_toggled] and a click do to the button at index [fst jb]. *)
Definition keep_only (i : nat) (jb : nat * button) : button :=
  if (fst jb =? i)%nat then snd jb else set_active (snd jb) false.

Definition flip_at (i : nat) (jb : nat * button) : button :=
  if (fst jb =? i)%nat then set_active (snd jb) (negb (active (snd jb))) else snd jb.

(** At most one option is active, and the confirm button is sensitive only
    if one is. *)
Definition settled (g : shadow_gui) : Prop :=
  (length (filter active (buttons g)) <= 1)%nat /\
  (confirm_sensitive g = true -> filter active (buttons g) <> []).

End Gstreamer.

(** * Properties *)

(** ** Bytes and their values *)

Lemma byte_of_N_to_N (b : byte) : byte_of_N (Byte.to_N b) = b.
Proof. unfold byte_of_N. now rewrite Byte.of_to_N. Qed.

Lemma to_N_byte_of_N (n : N) : (n < 256)%N -> Byte.to_N (byte_of_N n) = n.
Proof.
  intros Hn. unfold byte_of_N.
  destruct (Byte.of_N n) as [b|] eqn:E.
  - now apply Byte.to_of_N.
  - apply Byte.of_N_None_iff in E. lia.
Qed.

Lemma Z_of_byte_of_Z (z : Z) : 0 <= z < 256 -> Z_of_byte (byte_of_Z z) = z.
Proof.
  intros Hz. unfold Z_of_byte, byte_of_Z.
  rewrite to_N_byte_of_N by lia. lia.
Qed.

Lemma to_N_lt_256 (b : byte) : (Byte.to_N b < 256)%N.
Proof. pose proof (Byte.to_N_bounded b). lia. Qed.

Module StrFnFacts.
Import StrFn.

Lemma encode_latin1_decode (b : pybytes) :
  encode_latin1 (decode_latin1 b) = Ok b.
Proof.
  unfold encode_latin1, decode_latin1.
  replace (forallb _ (map Byte.to_N b)) with true.
  - rewrite map_map, (map_ext _ (fun x => x)), map_id;
      [reflexivity | intros a; apply byte_of_N_to_N].
  - symmetry. apply forallb_forall. intros c Hc.
    apply in_map_iff in Hc. destruct Hc as [a [<- _]].
    apply N.ltb_lt. apply to_N_lt_256.
Qed.

Lemma encode_latin1_small (s : pystr) :
  Forall (fun c => (c < 256)%N) s -> encode_latin1 s = Ok (map byte_of_N s).
Proof.
  intros Hs. unfold encode_latin1.
  replace (forallb _ s) with true; [reflexivity|].
  symmetry. apply forallb_forall. intros c Hc.
  apply N.ltb_lt. rewrite Forall_forall in Hs. now apply Hs.
Qed.

Lemma decode_latin1_encode (s : pystr) :
  Forall (fun c => (c < 256)%N) s -> decode_latin1 (map byte_of_N s) = s.
Proof.
  unfold decode_latin1. induction 1 as [|c s Hc Hs IH]; simpl.
  - reflexivity.
  - now rewrite to_N_byte_of_N, IH.
Qed.

(** C8: [strtobytes(bytestostr(b)) == b] for every [bytes] object [b], and
    [bytestostr(strtobytes(s)) == s] for every [str] whose code points are
    all below 256. *)
Theorem strtobytes_bytestostr_round_trip :
  (forall b : pybytes,
      strtobytes (PStr (bytestostr (PBuf (Buf KBytes b)))) = Ok b) /\
  (forall s : pystr,
      Forall (fun c => (c < 256)%N) s ->
      exists b : pybytes,
        strtobytes (PStr s) = Ok b /\ bytestostr (PBuf (Buf KBytes b)) = s).
Proof.
  split.
  - intros b. simpl. now rewrite encode_latin1_decode.
  - intros s Hs. exists (map byte_of_N s). simpl.
    rewrite encode_latin1_small by assumption.
    split; [reflexivity | now apply decode_latin1_encode].
Qed.

Lemma strtobytes_bytestostr_round_trip_witness :
  strtobytes (PStr (bytestostr (PBuf (Buf KBytes [x68; xe9; xff])))) = Ok [x68; xe9; xff] /\
  exists b : pybytes,
    strtobytes (PStr [104; 233; 255]%N) = Ok b /\
    bytestostr (PBuf (Buf KBytes b)) = [104; 233; 255]%N.
Proof.
  split.
  - apply (proj1 strtobytes_bytestostr_round_trip).
  - apply (proj2 strtobytes_bytestostr_round_trip).
    repeat constructor.
Defined.

Lemma replace_single (a : N) (new s : pystr) :
  replace s [a] new = flat_map (fun c => if (a =? c)%N then new else [c]) s.
Proof.
  unfold replace. induction s as [|c t IH]; [reflexivity|].
  cbn [replace_from flat_map]. unfold starts_with. cbn [combine forallb fst snd length].
  rewrite !andb_true_r. cbn [Nat.sub]. rewrite IH.
  destruct (a =? c)%N; reflexivity.
Qed.

Lemma flat_map_flat_map {A B C : Type} (f : A -> list B) (g : B -> list C) (l : list A) :
  flat_map g (flat_map f l) = flat_map (fun a => flat_map g (f a)) l.
Proof.
  induction l as [|a l IH]; simpl; [reflexivity|].
  now rewrite flat_map_app, IH.
Qed.

Lemma nonl_escape (s : pystr) : nonl s = escape_newlines s.
Proof.
  destruct s as [|c t]; [reflexivity|].
  unfold nonl. rewrite !replace_single, flat_map_flat_map.
  apply flat_map_ext. intros a. unfold escape_char.
  destruct (N.eqb_spec 10 a) as [<-|H10]; [reflexivity|].
  rewrite (proj2 (N.eqb_neq a 10)) by congruence.
  cbn [flat_map]. rewrite app_nil_r.
  rewrite (N.eqb_sym 13 a). destruct (a =? 13)%N; reflexivity.
Qed.

Lemma escape_no_newline (s : pystr) : no_newline s -> escape_newlines s = s.
Proof.
  unfold no_newline, escape_newlines. induction s as [|c t IH]; intros H; [reflexivity|].
  cbn [flat_map]. rewrite IH by (intros d Hd; apply H; now right).
  destruct (H c (or_introl eq_refl)) as [H10 H13]. unfold escape_char.
  rewrite (proj2 (N.eqb_neq c 10)), (proj2 (N.eqb_neq c 13)) by assumption.
  reflexivity.
Qed.

Lemma no_newline_app (s t : pystr) :
  no_newline s -> no_newline t -> no_newline (s ++ t).
Proof.
  intros Hs Ht c Hc. apply in_app_or in Hc. destruct Hc; auto.
Qed.

Lemma no_newline_firstn (n : nat) (s : pystr) : no_newline s -> no_newline (firstn n s).
Proof.
  intros H c Hc. apply H. rewrite <- (firstn_skipn n s).
  apply in_or_app. now left.
Qed.

Lemma no_newline_skipn (n : nat) (s : pystr) : no_newline s -> no_newline (skipn n s).
Proof.
  intros H c Hc. apply H. rewrite <- (firstn_skipn n s).
  apply in_or_app. now right.
Qed.

Lemma no_newline_dots : no_newline (lit " .. ").
Proof.
  intros c Hc. cbn in Hc.
  repeat (destruct Hc as [<-|Hc]; [split; discriminate|]). destruct Hc.
Qed.

Section Ellipsis.

Variable obj : pystr.
Variable limit : Z.
Hypothesis long : limit < len obj.
Hypothesis wide : 6 < limit.

Lemma half_bounds : 3 <= limit / 2 /\ 2 * (limit / 2) <= limit.
Proof.
  pose proof (Z.div_mod limit 2 ltac:(lia)).
  pose proof (Z.mod_pos_bound limit 2 ltac:(lia)). lia.
Qed.

Lemma kept_bounds : (1 <= kept limit /\ kept limit <= length obj)%nat.
Proof. unfold kept, len in *. pose proof half_bounds. lia. Qed.

Lemma slice_to_head : slice_to obj (limit / 2 - 2) = firstn (kept limit) obj.
Proof.
  unfold slice_to, clamp_index, kept. pose proof half_bounds. unfold len in *.
  destruct (Z.ltb_spec (limit / 2 - 2) 0); [lia|].
  f_equal. lia.
Qed.

Lemma slice_from_tail : slice_from obj (2 - limit / 2) = skipn (length obj - kept limit) obj.
Proof.
  unfold slice_from, clamp_index, kept. pose proof half_bounds. unfold len in *.
  destruct (Z.ltb_spec (2 - limit / 2) 0); [|lia].
  f_equal. lia.
Qed.

Lemma ellipsize_parts :
  ellipsize obj limit =
  firstn (kept limit) obj ++ lit " .. " ++ skipn (length obj - kept limit) obj.
Proof. unfold ellipsize. now rewrite slice_to_head, slice_from_tail. Qed.

Lemma ellipsize_len : len (ellipsize obj limit) = 2 * (limit / 2).
Proof.
  rewrite ellipsize_parts. unfold len. rewrite !length_app, length_firstn, length_skipn.
  pose proof kept_bounds. pose proof half_bounds. cbn [lit length list_ascii_of_string map].
  unfold kept in *. lia.
Qed.

End Ellipsis.

(** C10: on a [str] without line feed or carriage return and longer than
    [limit > 6], [repr_ellipsized] gives the first and the last
    [limit//2 - 2] characters joined by [" .. "], of length [2*(limit//2)],
    which is at most [limit]; on a [str] of length at most [limit] it gives
    the string with its newlines escaped and nothing else changed. *)
Theorem repr_ellipsized_str_spec (obj : pystr) (limit : Z) :
  (no_newline obj -> limit < len obj -> 6 < limit ->
   let k := kept limit in
   let r := repr_ellipsized (PStr obj) limit in
   r = firstn k obj ++ lit " .. " ++ skipn (length obj - k) obj /\
   length (firstn k obj) = k /\
   length (skipn (length obj - k) obj) = k /\
   len r = 2 * (limit / 2) /\
   len r <= limit) /\
  (len obj <= limit ->
   repr_ellipsized (PStr obj) limit = escape_newlines obj).
Proof.
  split.
  - intros Hnl Hlong Hwide k r.
    assert (Hr : r = ellipsize obj limit).
    { unfold r, repr_ellipsized, repr_ellipsized_str.
      rewrite (proj2 (Z.ltb_lt _ _) Hlong), (proj2 (Z.ltb_lt _ _) Hwide). cbn [andb].
      rewrite nonl_escape. apply escape_no_newline.
      rewrite ellipsize_parts by assumption.
      apply no_newline_app; [now apply no_newline_firstn|].
      apply no_newline_app; [apply no_newline_dots | now apply no_newline_skipn]. }
    pose proof (kept_bounds obj limit Hlong Hwide) as Hk.
    pose proof (half_bounds limit Hwide) as Hh.
    rewrite Hr. repeat split.
    + now apply ellipsize_parts.
    + rewrite length_firstn. unfold k. lia.
    + rewrite length_skipn. unfold k. lia.
    + now apply ellipsize_len.
    + rewrite ellipsize_len by assumption. lia.
  - intros Hshort. unfold repr_ellipsized, repr_ellipsized_str.
    rewrite (proj2 (Z.ltb_ge _ _) Hshort). cbn [andb]. apply nonl_escape.
Qed.

Lemma repr_ellipsized_str_spec_witness :
  (repr_ellipsized (PStr (lit "abcdefghijklmnop")) 11 = lit "abc .. nop" /\
   len (repr_ellipsized (PStr (lit "abcdefghijklmnop")) 11) = 10) /\
  repr_ellipsized (PStr [97; 10; 98; 13]%N) 11 = lit "a\nb\r".
Proof.
  split.
  - destruct (proj1 (repr_ellipsized_str_spec (lit "abcdefghijklmnop") 11))
      as (H1 & _ & _ & H2 & _).
    + intros c Hc. cbn in Hc.
      repeat (destruct Hc as [<-|Hc]; [split; discriminate|]). destruct Hc.
    + reflexivity.
    + reflexivity.
    + split; [exact H1 | exact H2].
  - apply (proj2 (repr_ellipsized_str_spec [97; 10; 98; 13]%N 11)).
    discriminate.
Defined.

End StrFnFacts.

Module RfbFacts.
Import Rfb.

Lemma land_255 (v : Z) : Z.land v 255 = v mod 256.
Proof. change 255 with (Z.ones 8). now rewrite Z.land_ones by lia. Qed.

Lemma byte_at (v k : Z) :
  0 <= k <= 24 -> Z.land (Z.shiftr v k) 255 = ((v mod 2 ^ 32) / 2 ^ k) mod 256.
Proof.
  intros Hk. rewrite land_255, Z.shiftr_div_pow2 by lia.
  change 256 with (2 ^ 8). apply Z.bits_inj'. intros n Hn.
  destruct (Z.ltb_spec n 8).
  - rewrite !Z.mod_pow2_bits_low, !Z.div_pow2_bits, Z.mod_pow2_bits_low by lia.
    reflexivity.
  - now rewrite !Z.mod_pow2_bits_high by lia.
Qed.

Lemma pack_B_values (v : Z) :
  0 <= v < 256 -> rmap byte_values (pack_field fmt_B v) = Ok [v].
Proof.
  intros Hv. cbn [pack_field].
  destruct (Z.leb_spec 0 v); [|lia]. destruct (Z.leb_spec v 255); [|lia].
  cbn. now rewrite Z_of_byte_of_Z by lia.
Qed.

Lemma pack_H_values (v : Z) :
  0 <= v < 65536 -> rmap byte_values (pack_field fmt_H v) = Ok (u16be v).
Proof.
  intros Hv. cbn [pack_field].
  destruct (Z.leb_spec 0 v); [|lia]. destruct (Z.leb_spec v 65535); [|lia].
  cbn [andb rmap byte_values map]. unfold u16be.
  rewrite land_255, Z.shiftr_div_pow2 by lia. change (2 ^ 8) with 256.
  assert (0 <= v / 256 < 256)
    by (split; [apply Z.div_pos | apply Z.div_lt_upper_bound]; lia).
  pose proof (Z.mod_pos_bound v 256 ltac:(lia)).
  now rewrite !Z_of_byte_of_Z by lia.
Qed.

Lemma pack_i_values (v : Z) :
  - 2 ^ 31 <= v < 2 ^ 31 -> rmap byte_values (pack_field fmt_i v) = Ok (i32be v).
Proof.
  intros Hv. cbn [pack_field].
  destruct (Z.leb_spec (-2147483648) v); [|lia].
  destruct (Z.leb_spec v 2147483647); [|lia].
  cbn [andb rmap byte_values map]. unfold i32be.
  rewrite (byte_at v 24), (byte_at v 16), (byte_at v 8) by lia.
  replace (Z.land v 255) with (Z.land (Z.shiftr v 0) 255) by now rewrite Z.shiftr_0_r.
  rewrite (byte_at v 0) by lia. change (2 ^ 0) with 1. rewrite Z.div_1_r.
  pose proof (Z.mod_pos_bound v (2 ^ 32) ltac:(lia)) as Hu.
  set (u := v mod 2 ^ 32) in *.
  assert (0 <= u / 2 ^ 24 < 256)
    by (split; [apply Z.div_pos | apply Z.div_lt_upper_bound]; lia).
  rewrite (Z.mod_small (u / 2 ^ 24) 256) by lia.
  pose proof (Z.mod_pos_bound (u / 2 ^ 16) 256 ltac:(lia)).
  pose proof (Z.mod_pos_bound (u / 2 ^ 8) 256 ltac:(lia)).
  pose proof (Z.mod_pos_bound u 256 ltac:(lia)).
  now rewrite !Z_of_byte_of_Z by lia.
Qed.

Lemma rmap_bind_app (r1 r2 : result pybytes) (l1 l2 : list Z) :
  rmap byte_values r1 = Ok l1 ->
  rmap byte_values r2 = Ok l2 ->
  rmap byte_values (b <- r1 ;; rest <- r2 ;; Ok (b ++ rest)) = Ok (l1 ++ l2).
Proof.
  destruct r1 as [b1|]; [|discriminate]. destruct r2 as [b2|]; [|discriminate].
  cbn. unfold byte_values. intros [= <-] [= <-]. now rewrite map_app.
Qed.

(** The layout that [make_header] emits: the message type and a padding
    byte, both zero, come before the update count, which is one. *)
Lemma make_header_values (encoding x y w h : Z) :
  in_u16 x -> in_u16 y -> in_u16 w -> in_u16 h -> in_i32 encoding ->
  rmap byte_values (make_header encoding x y w h) =
  Ok ([0; 0] ++ u16be 1 ++ u16be x ++ u16be y ++ u16be w ++ u16be h ++ i32be encoding).
Proof.
  unfold in_u16, in_i32. intros Hx Hy Hw Hh He. unfold make_header.
  apply (rmap_bind_app _ _ ([0; 0] ++ u16be 1)).
  - reflexivity.
  - cbn [struct_pack].
    repeat (apply (rmap_bind_app _ _ (u16be _)); [now apply pack_H_values|]).
    rewrite <- (app_nil_r (i32be encoding)).
    apply rmap_bind_app; [now apply pack_i_values | reflexivity].
Qed.

Lemma make_header_ok (encoding x y w h : Z) :
  in_u16 x -> in_u16 y -> in_u16 w -> in_u16 h -> in_i32 encoding ->
  exists header, make_header encoding x y w h = Ok header /\ length header = 16%nat.
Proof.
  intros Hx Hy Hw Hh He.
  pose proof (make_header_values encoding x y w h Hx Hy Hw Hh He) as H.
  destruct (make_header encoding x y w h) as [header|]; [|discriminate].
  exists header. split; [reflexivity|].
  cbn in H. injection H as H. apply (f_equal (@length Z)) in H.
  unfold byte_values in H. now rewrite length_map in H.
Qed.

(** C5, as stated, fails: the header of the rectangle (0, 0, 1, 1) with
    encoding 0 is not an update count followed by the rectangle, whatever the
    count. *)
Lemma make_header_not_claimed :
  ~ exists count : Z,
      rmap byte_values (make_header 0 0 0 1 1) = Ok (claimed_header count 0 0 0 1 1).
Proof.
  intros [count H].
  apply (f_equal (fun r => match r with Ok l => length l | Raise _ => O end)) in H.
  vm_compute in H. discriminate.
Qed.

(** C5, amended: for a rectangle whose fields fit 16 bits and an encoding
    that fits a signed 32-bit integer, [make_header] emits 16 bytes: the
    message type 0, a padding byte 0, the update count 1 as an unsigned
    16-bit big-endian field, then x, y, w, h as unsigned 16-bit big-endian
    fields, then the encoding as a signed 32-bit big-endian integer. *)
Theorem make_header_layout (encoding x y w h : Z) :
  in_u16 x -> in_u16 y -> in_u16 w -> in_u16 h -> in_i32 encoding ->
  exists header : pybytes,
    make_header encoding x y w h = Ok header /\
    length header = 16%nat /\
    byte_values header =
    [0; 0] ++ claimed_header 1 encoding x y w h.
Proof.
  intros Hx Hy Hw Hh He.
  pose proof (make_header_values encoding x y w h Hx Hy Hw Hh He) as H.
  destruct (make_header_ok encoding x y w h Hx Hy Hw Hh He) as [header [E L]].
  exists header. rewrite E in H. cbn [rmap] in H. injection H as H.
  repeat split; assumption.
Qed.

Lemma make_header_layout_witness :
  exists header : pybytes,
    make_header (-260) 1 2 640 480 = Ok header /\
    length header = 16%nat /\
    byte_values header = [0; 0; 0; 1; 0; 1; 0; 2; 2; 128; 1; 224; 255; 255; 254; 252].
Proof.
  apply (make_header_layout (-260) 1 2 640 480); unfold in_u16, in_i32; lia.
Defined.





Lemma memoryview_to_bytes_buffer (b : buffer) :
  StrFn.memoryview_to_bytes (PBuf b) = Ok (buf_data b).
Proof. destruct b as [[| |] data]; reflexivity. Qed.

Lemma slice_to_firstn {A : Type} (l : list A) (n : Z) :
  0 <= n <= len l ->
  slice_to l n = firstn (Z.to_nat n) l /\ len (slice_to l n) = n.
Proof.
  intros Hn. unfold slice_to, clamp_index.
  destruct (Z.ltb_spec n 0); [lia|].
  rewrite Z.min_l by lia. split; [reflexivity|].
  unfold len in *. rewrite length_firstn. lia.
Qed.

Section Encoders.

Variable RAW TIGHT : Z.
Variable PACKET_JOIN_SIZE : Z.
Variable restride : image -> Z -> image.
Variable encode_jpeg : image -> result buffer.

Hypothesis RAW_i32 : in_i32 RAW.

(** C7, as stated, fails: for the rectangle (70000, 0, 1, 2) the window
    yields an image whose pixels hold 16 bytes, and 8 once re-strided, as
    many as [4*w*h] asks for; yet [raw_encode] returns no chunk: 70000 does
    not fit the header's 16-bit field and [struct.pack] raises. *)
Lemma raw_encode_not_claimed :
  exists img : image,
    window_image sample_window 70000 0 1 2 = Some img /\
    4 * 1 * 2 <= buf_len (get_pixels img) /\
    4 * 1 * 2 <= buf_len (get_pixels (sample_restride img (1 * 4))) /\
    fst (raw_encode 0 16384 sample_restride sample_window 70000 0 1 2) = Raise StructError.
Proof.
  eexists. split; [reflexivity|].
  split; [vm_compute; discriminate|]. split; [vm_compute; discriminate | reflexivity].
Qed.

(** C7, amended: when the window yields an image, [raw_encode] re-strides it to
    [w*4] if its row stride differs and checks that the pixels hold at least
    [4*w*h] bytes (an assertion fails otherwise); it then cuts the pixels to
    exactly [4*w*h] bytes and returns the header joined with them as one
    chunk if they are at most [PACKET_JOIN_SIZE] bytes, and otherwise two
    chunks: the header, and the pixel data as the buffer it was, for every
    rectangle of the wire format: each of x, y, w, h fits an unsigned
    16-bit integer (and [RAW] a signed 32-bit one). *)
Theorem raw_encode_chunks (win : window) (x y w h : Z) (img : image) :
  window_image win x y w h = Some img ->
  let img' := if get_rowstride img =? w * 4 then img else restride img (w * 4) in
  let pixels := get_pixels img' in
  let data := firstn (Z.to_nat (4 * w * h)) (buf_data pixels) in
  (buf_len pixels < 4 * w * h ->
   fst (raw_encode RAW PACKET_JOIN_SIZE restride win x y w h) = Raise AssertionError) /\
  (in_u16 x -> in_u16 y -> in_u16 w -> in_u16 h ->
   4 * w * h <= buf_len pixels ->
   exists header : pybytes,
     make_header RAW x y w h = Ok header /\
     len data = 4 * w * h /\
     (4 * w * h <= PACKET_JOIN_SIZE ->
      fst (raw_encode RAW PACKET_JOIN_SIZE restride win x y w h) =
      Ok (Some [Buf KBytes (header ++ data)])) /\
     (PACKET_JOIN_SIZE < 4 * w * h ->
      fst (raw_encode RAW PACKET_JOIN_SIZE restride win x y w h) =
      Ok (Some [Buf KBytes header; Buf (buf_kind pixels) data]))).
Proof.
  intros Himg img' pixels data.
  assert (E : fst (raw_encode RAW PACKET_JOIN_SIZE restride win x y w h) =
              if negb (4 * w * h <=? buf_len pixels) then Raise AssertionError
              else
                header <- make_header RAW x y w h ;;
                if buf_len (buf_slice_to pixels (4 * w * h)) <=? PACKET_JOIN_SIZE
                then d <- StrFn.memoryview_to_bytes (PBuf (buf_slice_to pixels (4 * w * h))) ;;
                     Ok (Some [Buf KBytes (header ++ d)])
                else Ok (Some [Buf KBytes header; buf_slice_to pixels (4 * w * h)])).
  { unfold raw_encode, get_image. cbn [fst]. rewrite Himg.
    unfold pixels, img'. destruct (get_rowstride img =? w * 4); reflexivity. }
  rewrite E. clear E. split.
  - intros Hshort. destruct (Z.leb_spec (4 * w * h) (buf_len pixels)); [lia|]. reflexivity.
  - intros Hx Hy Hw Hh Hlen.
    destruct (make_header_ok RAW x y w h Hx Hy Hw Hh RAW_i32) as [header [Hhdr _]].
    exists header. split; [assumption|].
    assert (H0 : 0 <= 4 * w * h) by (unfold in_u16 in *; nia).
    destruct (slice_to_firstn (buf_data pixels) (4 * w * h)) as [Hslice Hcut];
      [unfold buf_len in Hlen; lia|].
    unfold data. rewrite <- Hslice. split; [assumption|].
    destruct (Z.leb_spec (4 * w * h) (buf_len pixels)); [|lia]. cbn [negb].
    rewrite Hhdr. cbn [bind].
    assert (Hbl : buf_len (buf_slice_to pixels (4 * w * h)) = 4 * w * h)
      by exact Hcut.
    rewrite Hbl. split; intros Hsize.
    + destruct (Z.leb_spec (4 * w * h) PACKET_JOIN_SIZE); [|lia].
      now rewrite memoryview_to_bytes_buffer.
    + destruct (Z.leb_spec (4 * w * h) PACKET_JOIN_SIZE); [lia|]. reflexivity.
Qed.

(** C9: when the window yields no image, both encoders return [None],
    neither an error nor a list, having asked for the image and then
    acknowledged the changes; and a list of chunks, never empty, is
    returned only when the window yielded an image. *)
Theorem encoders_without_image (win : window) (x y w h : Z) :
  (window_image win x y w h = None ->
   let win' := Window (window_image win)
                      (window_calls win ++ [GetImage x y w h] ++ [AcknowledgeChanges]) in
   raw_encode RAW PACKET_JOIN_SIZE restride win x y w h = (Ok None, win') /\
   tight_encode TIGHT PACKET_JOIN_SIZE encode_jpeg win x y w h = (Ok None, win')) /\
  (forall chunks : list buffer,
      fst (raw_encode RAW PACKET_JOIN_SIZE restride win x y w h) = Ok (Some chunks) \/
      fst (tight_encode TIGHT PACKET_JOIN_SIZE encode_jpeg win x y w h) = Ok (Some chunks) ->
      chunks <> [] /\ exists img : image, window_image win x y w h = Some img).
Proof.
  split.
  - intros Hnone win'. unfold raw_encode, tight_encode, get_image, acknowledge_changes.
    rewrite Hnone. cbn [window_image window_calls]. unfold win'.
    now rewrite <- app_assoc.
  - intros chunks H.
    destruct (window_image win x y w h) as [img|] eqn:Himg.
    + split; [|now exists img].
      unfold raw_encode, tight_encode, get_image in H. cbn [fst] in H.
      rewrite Himg in H. destruct H as [H|H].
      * destruct (negb (4 * w * h <=? _)); [discriminate|].
        destruct (make_header RAW x y w h); [|discriminate]. cbn [bind] in H.
        destruct (_ <=? PACKET_JOIN_SIZE).
        -- rewrite memoryview_to_bytes_buffer in H. cbn [bind] in H.
           injection H as <-. discriminate.
        -- injection H as <-. discriminate.
      * destruct (encode_jpeg img) as [data|]; [|discriminate]. cbn [bind] in H.
        destruct (make_header TIGHT x y w h); [|discriminate]. cbn [bind] in H.
        destruct (struct_pack [fmt_B] [128 + 31]); [|discriminate]. cbn [bind] in H.
        destruct (tight_length_header (buf_len data)); [|discriminate]. cbn [bind] in H.
        destruct (_ <=? PACKET_JOIN_SIZE).
        -- rewrite memoryview_to_bytes_buffer in H. cbn [bind] in H.
           injection H as <-. discriminate.
        -- injection H as <-. discriminate.
    + exfalso. unfold raw_encode, tight_encode, get_image in H. cbn [fst] in H.
      rewrite Himg in H. destruct H; discriminate.
Qed.



End Encoders.


Lemma raw_encode_chunks_witness :
  fst (raw_encode 0 16384 sample_restride sample_window 3 4 1 2) =
  Ok (Some [Buf KBytes [x00; x00; x00; x01; x00; x03; x00; x04; x00; x01; x00; x02;
                        x00; x00; x00; x00;
                        x01; x02; x03; x04; x05; x06; x07; x08]]) /\
  fst (raw_encode 0 7 sample_restride sample_window 3 4 1 2) =
  Ok (Some [Buf KBytes [x00; x00; x00; x01; x00; x03; x00; x04; x00; x01; x00; x02;
                        x00; x00; x00; x00];
            Buf KMemoryView [x01; x02; x03; x04; x05; x06; x07; x08]]).
Proof.
  assert (Hraw : in_i32 0) by (unfold in_i32; lia).
  assert (Hu : forall v, 0 <= v < 10 -> in_u16 v) by (unfold in_u16; lia).
  split.
  - destruct (proj2 (raw_encode_chunks 0 16384 sample_restride Hraw sample_window 3 4 1 2
                       (Image 8 (Buf KMemoryView sample_pixels)) eq_refl)
                (Hu 3 ltac:(lia)) (Hu 4 ltac:(lia)) (Hu 1 ltac:(lia)) (Hu 2 ltac:(lia)))
      as (header & Hh & _ & Hjoin & _).
    + vm_compute. discriminate.
    + vm_compute in Hh. injection Hh as <-. apply Hjoin. lia.
  - destruct (proj2 (raw_encode_chunks 0 7 sample_restride Hraw sample_window 3 4 1 2
                       (Image 8 (Buf KMemoryView sample_pixels)) eq_refl)
                (Hu 3 ltac:(lia)) (Hu 4 ltac:(lia)) (Hu 1 ltac:(lia)) (Hu 2 ltac:(lia)))
      as (header & Hh & _ & _ & Hsplit).
    + vm_compute. discriminate.
    + vm_compute in Hh. injection Hh as <-. apply Hsplit. lia.
Defined.

Lemma encoders_without_image_witness :
  raw_encode 0 16384 sample_restride sample_window 0 0 5 5 =
  (Ok None, Window (window_image sample_window) [GetImage 0 0 5 5; AcknowledgeChanges]) /\
  tight_encode 7 16384 (fun img => Ok (get_pixels img)) sample_window 0 0 5 5 =
  (Ok None, Window (window_image sample_window) [GetImage 0 0 5 5; AcknowledgeChanges]).
Proof.
  apply (proj1 (encoders_without_image 0 7 16384 sample_restride
                  (fun img => Ok (get_pixels img)) sample_window 0 0 5 5)).
  reflexivity.
Defined.

End RfbFacts.

Module BridgeFacts.
Import Bridge.

Lemma whitelisted_In (c : callee) (name : string) :
  whitelisted c name = true <-> In name (method_whitelist c).
Proof.
  unfold whitelisted. rewrite existsb_exists. split.
  - intros [m [Hm E]]. apply String.eqb_eq in E. now subst.
  - intros H. exists name. split; [assumption | apply String.eqb_refl].
Qed.

Lemma step_whitelist (c c' : callee) :
  step c c' -> method_whitelist c' = method_whitelist c.
Proof.
  intros [c0 p | c0]; [|reflexivity].
  unfold process_packet. cbn zeta.
  now destruct (whitelisted c0 (method_name (packet_name p))).
Qed.

Lemma reachable_whitelist (whitelist : list string) (c : callee) :
  reachable whitelist c -> method_whitelist c = whitelist.
Proof.
  induction 1 as [|c c' _ IH Hstep]; [reflexivity|].
  now rewrite (step_whitelist _ _ Hstep).
Qed.

(** In every reachable state, the methods invoked so far are whitelisted. *)
Lemma reachable_invoked (whitelist : list string) (c : callee) :
  reachable whitelist c ->
  forall m args, In (Invoke m args) (effects c) -> In m whitelist.
Proof.
  induction 1 as [|c c' Hreach IH Hstep]; intros m args Hin.
  - destruct Hin.
  - destruct Hstep as [c p | c]; [|now apply (IH m args)].
    unfold process_packet in Hin. cbn zeta in Hin.
    destruct (whitelisted c (method_name (packet_name p))) eqn:W; cbn [effects] in Hin;
      apply in_app_or in Hin; destruct Hin as [Hin | [Hin | []]];
      try (now apply (IH m args)); try discriminate.
    assert (m = method_name (packet_name p)) by congruence. subst m.
    apply whitelisted_In in W.
    now rewrite (reachable_whitelist _ _ Hreach) in W.
Qed.

Lemma receive_reachable (whitelist : list string) (packets : list packet) :
  forall c, reachable whitelist c -> reachable whitelist (receive c packets).
Proof.
  unfold receive. induction packets as [|p packets IH]; intros c Hc; [assumption|].
  cbn [fold_left]. apply IH. apply (reach_step whitelist c); [assumption | constructor].
Qed.

(** What a sequence of packets adds to the effects: one per packet, an
    invocation or a line in the log. *)
Lemma receive_effects (packets : list packet) :
  forall c,
    effects (receive c packets) =
    effects c ++
    map (fun p => if allowed (method_whitelist c) p
                  then Invoke (method_name (packet_name p)) (packet_args p)
                  else LogDropped (packet_name p)) packets.
Proof.
  unfold receive. induction packets as [|p packets IH]; intros c; cbn [fold_left map].
  - now rewrite app_nil_r.
  - rewrite IH. unfold process_packet, allowed, whitelisted. cbn zeta.
    destruct (existsb (String.eqb (method_name (packet_name p))) (method_whitelist c));
      cbn [effects method_whitelist]; now rewrite <- app_assoc.
Qed.

Lemma invocations_of_packets (whitelist : list string) (packets : list packet) :
  invocations
    (map (fun p => if allowed whitelist p
                   then Invoke (method_name (packet_name p)) (packet_args p)
                   else LogDropped (packet_name p)) packets) =
  map (fun p => Invoke (method_name (packet_name p)) (packet_args p))
      (filter (allowed whitelist) packets).
Proof.
  unfold invocations. induction packets as [|p packets IH]; [reflexivity|].
  cbn [map filter]. destruct (allowed whitelist p); cbn [is_invoke map]; now rewrite IH.
Qed.

Lemma logged_of_packets (whitelist : list string) (packets : list packet) :
  logged
    (map (fun p => if allowed whitelist p
                   then Invoke (method_name (packet_name p)) (packet_args p)
                   else LogDropped (packet_name p)) packets) =
  map (fun p => LogDropped (packet_name p))
      (filter (fun p => negb (allowed whitelist p)) packets).
Proof.
  unfold logged. induction packets as [|p packets IH]; [reflexivity|].
  cbn [map filter]. destruct (allowed whitelist p); cbn [is_invoke negb map]; now rewrite IH.
Qed.

(** C1, as stated, fails on the packet of the unit test: the name
    [test-signal] is not in the whitelist of the test, and the packet
    invokes the method [test_signal] with its argument. *)
Lemma raw_name_not_enforced :
  ~ In (packet_name test_signal_packet) test_whitelist /\
  effects (process_packet (new_callee test_whitelist) test_signal_packet) =
  [Invoke "test_signal" (packet_args test_signal_packet)].
Proof.
  split; [| reflexivity].
  cbn. intros [H|[H|[H|[]]]]; discriminate.
Qed.

(** C1, amended: from every reachable state of a callee built with a
    whitelist, the packets received invoke, in the order received and with
    their arguments, the methods they name (hyphens read as underscores)
    when that method is whitelisted, and nothing else; the other packets
    are logged, one line each, and invoke nothing; and no state is ever
    reached in which a method outside the whitelist has been invoked. *)
Theorem whitelist_enforced (whitelist : list string) (c : callee) (packets : list packet) :
  reachable whitelist c ->
  let c' := receive c packets in
  reachable whitelist c' /\
  invocations (effects c') =
  invocations (effects c) ++
  map (fun p => Invoke (method_name (packet_name p)) (packet_args p))
      (filter (allowed whitelist) packets) /\
  logged (effects c') =
  logged (effects c) ++
  map (fun p => LogDropped (packet_name p))
      (filter (fun p => negb (allowed whitelist p)) packets) /\
  (forall m args, In (Invoke m args) (effects c') -> In m whitelist).
Proof.
  intros Hreach c'. pose proof (reachable_whitelist _ _ Hreach) as Hw.
  pose proof (receive_reachable whitelist packets c Hreach) as Hreach'.
  split; [assumption|].
  unfold c'. rewrite receive_effects, Hw.
  unfold invocations at 1, logged at 1. rewrite !filter_app.
  fold (invocations (effects c)). fold (logged (effects c)).
  split; [| split].
  - f_equal. apply invocations_of_packets.
  - f_equal. apply logged_of_packets.
  - intros m args Hin. apply (reachable_invoked whitelist (receive c packets) Hreach' m args).
    now rewrite receive_effects, Hw.
Qed.

Lemma whitelist_enforced_witness :
  let c := advance (advance (new_callee test_whitelist)) in
  invocations
    (effects (receive c [test_signal_packet; Packet "unused_method" []; Packet "loop_stop" []])) =
  [Invoke "test_signal" (packet_args test_signal_packet); Invoke "loop_stop" []].
Proof.
  intros c.
  assert (Hc : reachable test_whitelist c).
  { apply (reach_step test_whitelist (advance (new_callee test_whitelist))); [|constructor].
    apply (reach_step test_whitelist (new_callee test_whitelist)); constructor. }
  exact (proj1 (proj2 (whitelist_enforced test_whitelist c
                         [test_signal_packet; Packet "unused_method" [];
                          Packet "loop_stop" []] Hc))).
Defined.

End BridgeFacts.

Module NetworkStateFacts.
Import NetworkState.

Lemma process_bandwidth_limit_rejects (ss : source) (payload : value) :
  not_a_limit payload -> process_bandwidth_limit ss payload = Raise TypeError.
Proof.
  intros H. destruct payload; try reflexivity.
  cbn. specialize (H z eq_refl). destruct (Z.ltb_spec z 0); [reflexivity | lia].
Qed.

Lemma process_bandwidth_limit_accepts (ss : source) (requested : Z) :
  0 <= requested ->
  process_bandwidth_limit ss (VInt requested) =
  Ok (Source (process_wide_cap ss) (Z.min requested (process_wide_cap ss))).
Proof.
  intros H. cbn. destruct (Z.ltb_spec requested 0); [lia | reflexivity].
Qed.

(** C3: a [bandwidth-limit] packet whose payload is not a non-negative
    integer fails with a TypeError and leaves the state, and so the
    effective limit, as it was; a non-negative integer is accepted without
    error. Whatever the payload was, the session goes on: the next valid
    request is accepted and takes effect. *)
Theorem bandwidth_limit_validation (ss : source) (payload : value) :
  (not_a_limit payload ->
   handle_packet ss (bandwidth_limit_packet payload) = (ss, Some TypeError)) /\
  (forall z : Z, payload = VInt z -> 0 <= z ->
   snd (handle_packet ss (bandwidth_limit_packet payload)) = None) /\
  (forall r : Z, 0 <= r ->
   let ss' := fst (handle_packet ss (bandwidth_limit_packet payload)) in
   handle_packet ss' (bandwidth_limit_packet (VInt r)) =
   (Source (process_wide_cap ss) (Z.min r (process_wide_cap ss)), None)).
Proof.
  unfold handle_packet, process_packet, bandwidth_limit_packet.
  cbn [packet_args packet_name String.eqb Ascii.eqb Bool.eqb andb].
  split; [|split].
  - intros H. now rewrite process_bandwidth_limit_rejects.
  - intros z -> Hz. now rewrite process_bandwidth_limit_accepts.
  - intros r Hr.
    assert (Hcap : process_wide_cap
                     (fst (match process_bandwidth_limit ss payload with
                           | Ok ss' => (ss', None)
                           | Raise e => (ss, Some e)
                           end)) = process_wide_cap ss).
    { destruct payload; try reflexivity. cbn. now destruct (z <? 0). }
    cbv zeta. rewrite process_bandwidth_limit_accepts by assumption.
    now rewrite Hcap.
Qed.

Lemma bandwidth_limit_validation_witness :
  let ss := Source 1000000000 1000000000 in
  Forall (fun payload =>
            handle_packet ss (bandwidth_limit_packet payload) = (ss, Some TypeError))
         [VNone; VStr (lit "foo"); VFloat 4611686018427387904;
          VList []; VTuple []; VSet []; VInt (-1)] /\
  snd (handle_packet ss (bandwidth_limit_packet (VInt 10485760))) = None.
Proof.
  intros ss. split.
  - repeat constructor;
      apply (proj1 (bandwidth_limit_validation ss _));
      intros z E; try discriminate E; injection E as <-; lia.
  - apply (proj1 (proj2 (bandwidth_limit_validation ss (VInt 10485760))) 10485760 eq_refl).
    lia.
Defined.

Lemma handle_packet_cap (ss : source) (p : packet) :
  process_wide_cap (fst (handle_packet ss p)) = process_wide_cap ss /\
  (bandwidth_limit ss <= process_wide_cap ss ->
   bandwidth_limit (fst (handle_packet ss p)) <= process_wide_cap ss).
Proof.
  unfold handle_packet, process_packet.
  destruct (String.eqb (packet_name p) "bandwidth-limit").
  - destruct (packet_args p) as [|payload rest]; [now split|].
    destruct payload; try now split.
    cbn. destruct (z <? 0); cbn; [now split|]. split; [reflexivity | lia].
  - destruct (String.eqb (packet_name p) "connection-data"); [|now split].
    destruct (packet_args p) as [|payload rest]; [now split|].
    destruct payload; now split.
Qed.

Lemma handle_packets_cap (ps : list packet) (ss : source) :
  bandwidth_limit ss <= process_wide_cap ss ->
  bandwidth_limit (handle_packets ss ps) <= process_wide_cap ss.
Proof.
  revert ss. induction ps as [|p ps IH]; intros ss H; [assumption|].
  cbn [handle_packets fold_left].
  destruct (handle_packet_cap ss p) as [Hcap Hle].
  rewrite <- Hcap. apply IH. rewrite Hcap. now apply Hle.
Qed.

(** The last check of the unit test: a request one above
    [MAX_BANDWIDTH_LIMIT] leaves [min(capped_at, MAX_BANDWIDTH_LIMIT)], which
    is the cap whenever the cap is at most that maximum. *)
Lemma request_above_maximum (ss : source) (MAX_BANDWIDTH_LIMIT : Z) :
  0 <= MAX_BANDWIDTH_LIMIT ->
  process_wide_cap ss <= MAX_BANDWIDTH_LIMIT ->
  get_limit (fst (handle_packet ss (bandwidth_limit_packet (VInt (MAX_BANDWIDTH_LIMIT + 1))))) =
  Z.min (process_wide_cap ss) MAX_BANDWIDTH_LIMIT.
Proof.
  intros H0 Hcap. unfold handle_packet, process_packet, bandwidth_limit_packet.
  cbn [packet_args packet_name String.eqb Ascii.eqb Bool.eqb andb].
  rewrite process_bandwidth_limit_accepts by lia. cbn. lia.
Qed.

(** C4: an accepted request [r] under the cap [C] leaves the effective
    limit at [min r C]: the request itself when it is at most the cap, the
    cap when it exceeds it; and whatever packets a session receives, its
    effective limit stays at most the cap. *)
Theorem effective_limit_is_min (ss : source) (r : Z) :
  0 <= r ->
  let C := process_wide_cap ss in
  let ss' := fst (handle_packet ss (bandwidth_limit_packet (VInt r))) in
  get_limit ss' = Z.min r C /\
  process_wide_cap ss' = C /\
  (r <= C -> get_limit ss' = r) /\
  (C < r -> get_limit ss' = C) /\
  (forall ps : list packet,
      get_limit (handle_packets ss' ps) <= C).
Proof.
  intros Hr C ss'.
  assert (E : ss' = Source C (Z.min r C)).
  { unfold ss', handle_packet, process_packet, bandwidth_limit_packet.
    cbn [packet_args packet_name String.eqb Ascii.eqb Bool.eqb andb].
    now rewrite process_bandwidth_limit_accepts. }
  rewrite E. cbn [get_limit bandwidth_limit process_wide_cap].
  repeat split; try lia.
  intros ps. unfold get_limit.
  change C with (process_wide_cap (Source C (Z.min r C))) at 2.
  apply handle_packets_cap. cbn. lia.
Qed.

Lemma effective_limit_is_min_witness :
  let ss := Source 1000000000 1000000000 in
  get_limit (fst (handle_packet ss (bandwidth_limit_packet (VInt 10485760)))) = 10485760 /\
  get_limit (fst (handle_packet ss (bandwidth_limit_packet (VInt 10000000001)))) = 1000000000.
Proof.
  intros ss. split.
  - destruct (effective_limit_is_min ss 10485760) as (_ & _ & H & _); [lia|].
    apply H. cbn. lia.
  - destruct (effective_limit_is_min ss 10000000001) as (_ & _ & _ & H & _); [lia|].
    apply H. cbn. lia.
Defined.

End NetworkStateFacts.


Module StrFnMoreFacts.
Import StrFn StrFnMore StrFnFacts.

Lemma in_escape_char (c x : N) : In c (escape_char x) -> c <> 10%N /\ c <> 13%N.
Proof.
  unfold escape_char.
  destruct (N.eqb_spec x 10); [|destruct (N.eqb_spec x 13)]; cbn;
    intros H; repeat (destruct H as [<-|H]; [split; (discriminate || congruence)|]);
    destruct H.
Qed.

Lemma escape_newlines_clean (s : pystr) : no_newline (escape_newlines s).
Proof.
  intros c Hc. apply in_flat_map in Hc. destruct Hc as [x [_ Hx]].
  now apply (in_escape_char c x).
Qed.

Lemma escape_newlines_length (s : pystr) :
  length (escape_newlines s) = (length s + length (filter is_newline s))%nat.
Proof.
  unfold escape_newlines. induction s as [|c s IH]; [reflexivity|].
  cbn [flat_map filter]. rewrite length_app, IH. unfold escape_char, is_newline.
  destruct (c =? 10)%N; [cbn; lia|].
  destruct (c =? 13)%N; cbn; lia.
Qed.

Lemma escape_newlines_len (s : pystr) :
  len (escape_newlines s) = len s + count_newlines s.
Proof. unfold count_newlines, len. rewrite escape_newlines_length. lia. Qed.

(** X1: what [nonl] returns holds no line feed and no carriage return,
    applying [nonl] again changes nothing, and the result is longer than the
    argument by one character for each line feed or carriage return. *)
Theorem nonl_clean (s : pystr) :
  no_newline (nonl s) /\
  nonl (nonl s) = nonl s /\
  len (nonl s) = len s + count_newlines s.
Proof.
  rewrite !nonl_escape. split; [apply escape_newlines_clean|]. split.
  - apply escape_no_newline, escape_newlines_clean.
  - apply escape_newlines_len.
Qed.





Lemma no_newline_lit_cons (c : N) (s : pystr) :
  c <> 10%N -> c <> 13%N -> no_newline s -> no_newline (c :: s).
Proof. intros H10 H13 Hs x [<-|Hx]; [now split | now apply Hs]. Qed.







Lemma count_newlines_app (s t : pystr) :
  count_newlines (s ++ t) = count_newlines s + count_newlines t.
Proof. unfold count_newlines, len. rewrite filter_app, length_app. lia. Qed.

Lemma count_newlines_bound (s : pystr) : 0 <= count_newlines s <= len s.
Proof.
  unfold count_newlines, len. pose proof (filter_length_le is_newline s). lia.
Qed.

(** X3: on a [str] longer than a limit above 6, the length of what
    [repr_ellipsized] returns is [2*(limit//2)] plus one for each line feed
    or carriage return among the characters kept at either end: escaping
    comes after the cut, so the result can be longer than the limit, but
    never longer than [2*limit - 4]. *)
Theorem repr_ellipsized_str_length (obj : pystr) (limit : Z) :
  limit < len obj -> 6 < limit ->
  let k := kept limit in
  let r := repr_ellipsized (PStr obj) limit in
  len r = 2 * (limit / 2)
          + count_newlines (firstn k obj)
          + count_newlines (skipn (length obj - k) obj) /\
  len r <= 2 * limit - 4.
Proof.
  intros Hlong Hwide k r.
  assert (Hr : r = escape_newlines (ellipsize obj limit)).
  { unfold r, repr_ellipsized, repr_ellipsized_str.
    rewrite (proj2 (Z.ltb_lt _ _) Hlong), (proj2 (Z.ltb_lt _ _) Hwide). cbn [andb].
    apply nonl_escape. }
  pose proof (kept_bounds obj limit Hlong Hwide) as Hk.
  pose proof (half_bounds limit Hwide) as Hh.
  assert (Hlen : len r = 2 * (limit / 2)
                         + count_newlines (firstn k obj)
                         + count_newlines (skipn (length obj - k) obj)).
  { rewrite Hr, escape_newlines_len, ellipsize_len by assumption.
    rewrite ellipsize_parts by assumption. rewrite !count_newlines_app.
    change (count_newlines (lit " .. ")) with 0. fold k. lia. }
  split; [assumption|]. rewrite Hlen.
  pose proof (count_newlines_bound (firstn k obj)) as H1.
  pose proof (count_newlines_bound (skipn (length obj - k) obj)) as H2.
  unfold len in H1, H2. rewrite length_firstn in H1. rewrite length_skipn in H2.
  unfold k, kept in *. lia.
Qed.

Lemma repr_ellipsized_str_length_witness :
  len (repr_ellipsized (PStr (repeat 10%N 12)) 8) = 12.
Proof.
  destruct (repr_ellipsized_str_length (repeat 10%N 12) 8) as [H _];
    [reflexivity | reflexivity |].
  exact H.
Defined.

(** *** [strtobytes] on a [str] *)

Lemma utf8_char_length (c : N) (bs : pybytes) :
  utf8_char c = Ok bs ->
  (1 <= length bs)%nat /\ ((128 <= c)%N -> (2 <= length bs)%nat).
Proof.
  unfold utf8_char.
  destruct (N.ltb_spec c 128); [intros [= <-]; cbn; split; lia|].
  destruct (c <? 2048)%N; [intros [= <-]; cbn; split; lia|].
  destruct (c <? 65536)%N.
  - destruct (_ && _); [discriminate|]. intros [= <-]. cbn. split; lia.
  - destruct (c <? 1114112)%N; [|discriminate]. intros [= <-]. cbn. split; lia.
Qed.

Lemma utf8_char_raise (c : N) (e : exn) :
  utf8_char c = Raise e -> e = UnicodeEncodeError /\ unencodable c.
Proof.
  unfold utf8_char, unencodable.
  destruct (c <? 128)%N; [discriminate|].
  destruct (c <? 2048)%N; [discriminate|].
  destruct (c <? 65536)%N.
  - destruct (N.leb_spec 55296 c); destruct (N.leb_spec c 57343); cbn [andb];
      try discriminate.
    intros [= <-]. split; [reflexivity | left; lia].
  - destruct (N.ltb_spec c 1114112); [discriminate|].
    intros [= <-]. split; [reflexivity | right; lia].
Qed.

Lemma encode_utf8_length (s : pystr) :
  forall b, encode_utf8 s = Ok b ->
            (length s <= length b)%nat /\
            (Exists (fun c => (128 <= c)%N) s -> (length s < length b)%nat).
Proof.
  induction s as [|c s IH]; intros b Hb.
  - cbn in Hb. injection Hb as <-. split; [cbn; lia|]. intros H. inversion H.
  - cbn [encode_utf8] in Hb.
    destruct (utf8_char c) as [bs|] eqn:Hc; [|discriminate].
    destruct (encode_utf8 s) as [rest|] eqn:Hs; [|discriminate].
    cbn [bind] in Hb. injection Hb as <-.
    destruct (utf8_char_length c bs Hc) as [H1 H2].
    destruct (IH rest eq_refl) as [H3 H4].
    rewrite length_app. cbn [length]. split; [lia|].
    intros H. inversion H as [? ? Hhd | ? ? Htl]; subst.
    + specialize (H2 Hhd). lia.
    + specialize (H4 Htl). lia.
Qed.

Lemma encode_utf8_raise (s : pystr) (e : exn) :
  encode_utf8 s = Raise e -> e = UnicodeEncodeError /\ Exists unencodable s.
Proof.
  induction s as [|c s IH]; [discriminate|]. cbn [encode_utf8].
  destruct (utf8_char c) as [bs|e'] eqn:Hc.
  - destruct (encode_utf8 s) as [rest|e''] eqn:Hs; [discriminate|].
    cbn [bind]. intros [= <-]. destruct (IH eq_refl) as [-> H].
    split; [reflexivity | now apply Exists_cons_tl].
  - cbn [bind]. intros [= <-]. destruct (utf8_char_raise c e' Hc) as [-> H].
    split; [reflexivity | now apply Exists_cons_hd].
Qed.

Lemma encode_utf8_ok (s : pystr) :
  Forall (fun c => ~ unencodable c) s -> exists b, encode_utf8 s = Ok b.
Proof.
  induction 1 as [|c s Hc Hs [rest IH]]; [now exists []|].
  cbn [encode_utf8]. destruct (utf8_char c) as [bs|e] eqn:E.
  - rewrite IH. cbn [bind]. now eexists.
  - destruct (utf8_char_raise c e E) as [_ H]. contradiction.
Qed.

Lemma strtobytes_str (s : pystr) :
  strtobytes (PStr s) =
  if forallb (fun c => (c <? 256)%N) s then Ok (map byte_of_N s) else encode_utf8 s.
Proof.
  cbn [strtobytes py_str]. unfold encode_latin1. now destruct (forallb _ s).
Qed.

(** X4: [strtobytes] on a [str] fails only with a UnicodeEncodeError and
    only when the string holds a code point that UTF-8 cannot encode (a
    lone surrogate); on every other string it returns bytes. *)
Theorem strtobytes_str_failure (s : pystr) :
  (Forall (fun c => ~ unencodable c) s -> exists b, strtobytes (PStr s) = Ok b) /\
  (forall e, strtobytes (PStr s) = Raise e ->
             e = UnicodeEncodeError /\ Exists unencodable s).
Proof.
  rewrite strtobytes_str. destruct (forallb _ s).
  - split; [intros _; now eexists | discriminate].
  - split; [apply encode_utf8_ok | apply encode_utf8_raise].
Qed.

Lemma strtobytes_str_failure_witness :
  (exists b, strtobytes (PStr [104; 8364]%N) = Ok b) /\
  (forall e, strtobytes (PStr [104; 55357]%N) = Raise e ->
             e = UnicodeEncodeError /\ Exists unencodable [104; 55357]%N).
Proof.
  split.
  - apply (proj1 (strtobytes_str_failure [104; 8364]%N)).
    repeat constructor; unfold unencodable; lia.
  - apply (proj2 (strtobytes_str_failure [104; 55357]%N)).
Defined.

(** X5: the bound of 256 on the round trip is sharp: when a [str] holds a
    code point of 256 or more, the bytes [strtobytes] returns are more than
    the string has characters, and [bytestostr] does not give the string
    back. *)
Theorem strtobytes_wide_no_round_trip (s : pystr) (b : pybytes) :
  Exists (fun c => (256 <= c)%N) s ->
  strtobytes (PStr s) = Ok b ->
  (length s < length b)%nat /\ bytestostr (PBuf (Buf KBytes b)) <> s.
Proof.
  intros Hwide Hb. rewrite strtobytes_str in Hb.
  assert (Hl : (length s < length b)%nat).
  { destruct (forallb (fun c => (c <? 256)%N) s) eqn:E.
    - exfalso. rewrite forallb_forall in E. apply Exists_exists in Hwide.
      destruct Hwide as [c [Hin Hc]]. specialize (E c Hin).
      apply N.ltb_lt in E. lia.
    - apply (encode_utf8_length s b Hb).
      apply Exists_exists in Hwide. destruct Hwide as [c [Hin Hc]].
      apply Exists_exists. exists c. split; [assumption | lia]. }
  split; [assumption|].
  intros E. apply (f_equal (@length N)) in E.
  cbn [bytestostr] in E. unfold decode_latin1 in E. rewrite length_map in E. lia.
Qed.

Lemma strtobytes_wide_no_round_trip_witness :
  (length [8364%N] < length [xe2; x82; xac])%nat /\
  bytestostr (PBuf (Buf KBytes [xe2; x82; xac])) <> [8364%N].
Proof.
  apply (strtobytes_wide_no_round_trip [8364%N] [xe2; x82; xac]).
  - constructor. lia.
  - reflexivity.
Defined.

(** *** [hexstr] *)

Lemma hexpair_digits (x : byte) : Forall is_hexdigit (hexpair x).
Proof.
  destruct x; unfold hexpair;
    (apply Forall_cons; [|apply Forall_cons; [|apply Forall_nil]]);
    unfold is_hexdigit; vm_compute;
    repeat (first [left; reflexivity | right]).
Qed.

Lemma hexpair_value (x : byte) :
  (16 * unhex (hexdigit (Byte.to_N x / 16)) + unhex (hexdigit (Byte.to_N x mod 16)))%N
  = Byte.to_N x.
Proof. destruct x; reflexivity. Qed.

Lemma hexpair_inj (x y : byte) : hexpair x = hexpair y -> x = y.
Proof.
  unfold hexpair. intros [= Hhi Hlo].
  pose proof (hexpair_value x) as Hx. pose proof (hexpair_value y) as Hy.
  rewrite Hhi, Hlo, Hy in Hx.
  apply (f_equal Byte.of_N) in Hx. rewrite !Byte.of_to_N in Hx. congruence.
Qed.

Lemma is_hexdigit_lt (c : N) : is_hexdigit c -> (c < 256)%N.
Proof.
  unfold is_hexdigit. cbn. intros H.
  repeat (destruct H as [<-|H]; [reflexivity|]). destruct H.
Qed.

Lemma hexstr_buffer_eq (b : buffer) :
  hexstr (PBuf b) = Ok (flat_map hexpair (buf_data b)).
Proof.
  unfold hexstr. rewrite RfbFacts.memoryview_to_bytes_buffer. cbn [bind bytestostr].
  f_equal. unfold decode_latin1, hexlify.
  induction (buf_data b) as [|x data IH]; [reflexivity|].
  cbn [flat_map map app]. rewrite IH. unfold hexpair.
  pose proof (hexpair_digits x) as Hd. unfold hexpair in Hd.
  inversion Hd as [|? ? H1 Hd']. inversion Hd' as [|? ? H2 _]. subst.
  now rewrite !to_N_byte_of_N by now apply is_hexdigit_lt.
Qed.

Lemma flat_map_hexpair_inj (b1 : pybytes) :
  forall b2, flat_map hexpair b1 = flat_map hexpair b2 -> b1 = b2.
Proof.
  induction b1 as [|x b1 IH]; intros [|y b2] H; try reflexivity; try discriminate.
  cbn [flat_map] in H. unfold hexpair at 1 3 in H. cbn [app] in H.
  injection H as Hhi Hlo Hrest.
  rewrite (IH b2 Hrest). f_equal. apply hexpair_inj. unfold hexpair. congruence.
Qed.

(** X6: [hexstr] of a buffer is a string of twice as many characters as the
    buffer has bytes, all of them among [0-9a-f], and it tells buffers with
    different contents apart. *)
Theorem hexstr_buffer (b1 b2 : buffer) :
  (exists s : pystr,
      hexstr (PBuf b1) = Ok s /\
      len s = 2 * len (buf_data b1) /\
      Forall is_hexdigit s) /\
  (hexstr (PBuf b1) = hexstr (PBuf b2) -> buf_data b1 = buf_data b2).
Proof.
  rewrite !hexstr_buffer_eq. split.
  - eexists. split; [reflexivity|]. split.
    + unfold len. induction (buf_data b1) as [|x data IH]; [reflexivity|].
      cbn [flat_map length app hexpair]. lia.
    + induction (buf_data b1) as [|x data IH]; [constructor|].
      cbn [flat_map]. apply Forall_app. split; [apply hexpair_digits | assumption].
  - intros [= H]. now apply flat_map_hexpair_inj.
Qed.

Lemma hexstr_buffer_witness :
  hexstr (PBuf (Buf KMemoryView [x00; x9f; xff])) = Ok (lit "009fff") /\
  (hexstr (PBuf (Buf KBytes [x01])) = hexstr (PBuf (Buf KByteArray [x01])) ->
   [x01] = [x01]).
Proof.
  split; [reflexivity|].
  apply (proj2 (hexstr_buffer (Buf KBytes [x01]) (Buf KByteArray [x01]))).
Defined.

(** *** [std], [alnum] and [obsc] *)

Section Sanitize.

Variable isalnum : N -> bool.
Variable obj_bool : pystr -> pystr -> bool.

Lemma filter_idem {A : Type} (f : A -> bool) (l : list A) :
  filter f (filter f l) = filter f l.
Proof.
  induction l as [|a l IH]; [reflexivity|]. cbn [filter].
  destruct (f a) eqn:E; [|assumption]. cbn [filter]. now rewrite E, IH.
Qed.

(** X7: [std] keeps, in their order, exactly the characters that are
    alphanumeric or among [extras], so every character of its result is
    one of those and applying it again changes nothing; an argument that is
    false ([None], an empty string or buffer, or an object whose truth
    value is false, such as [0]) gives the empty string, whatever its text.
    [alnum] is [std] without extras on every argument that is true. *)
Theorem std_sanitizes (v : pyarg) (extras : pystr) :
  let r := std isalnum obj_bool v extras in
  Forall (fun c => isalnum c = true \/ In c extras) r /\
  std isalnum obj_bool (AObj (PStr r)) extras = r /\
  (truthy obj_bool v = false -> r = []) /\
  (truthy obj_bool v = true -> alnum isalnum v = std isalnum obj_bool v []).
Proof.
  intros r. unfold r, std, alnum. split; [|split; [|split]].
  - apply Forall_forall. intros c Hc. apply filter_In in Hc. destruct Hc as [_ Hc].
    apply orb_true_iff in Hc. destruct Hc as [Hc|Hc]; [now left | right].
    apply existsb_exists in Hc. destruct Hc as [x [Hx E]].
    apply N.eqb_eq in E. now subst.
  - set (f := fun c => isalnum c || existsb (N.eqb c) extras).
    set (s := bytestostr_arg (if truthy obj_bool v then v else AObj (PStr []))).
    destruct (filter f s) as [|c t] eqn:E; [reflexivity|].
    cbn [truthy is_empty negb bytestostr_arg bytestostr py_str].
    rewrite <- E. apply filter_idem.
  - intros ->. reflexivity.
  - intros ->. apply filter_ext. intros c. cbn [existsb]. now rewrite orb_false_r.
Qed.

End Sanitize.

Lemma std_sanitizes_witness :
  let isalnum c := ((48 <=? c) && (c <=? 57) || (97 <=? c) && (c <=? 122))%N in
  let obj_bool (str_ repr_ : pystr) := negb (FilePrint.str_eqb str_ (lit "0")) in
  let v := AObj (PStr (lit "a-b!9")) in
  let zero := AObj (PObj (lit "0") (lit "0")) in
  alnum isalnum v = std isalnum obj_bool v [] /\
  std isalnum obj_bool zero (lit "-,./: ") = [] /\
  alnum isalnum zero = lit "0".
Proof.
  intros isalnum obj_bool v zero. split; [| split].
  - apply (proj2 (proj2 (proj2 (std_sanitizes isalnum obj_bool v [])))).
    reflexivity.
  - apply (proj1 (proj2 (proj2 (std_sanitizes isalnum obj_bool zero (lit "-,./: "))))).
    reflexivity.
  - reflexivity.
Defined.



(** *** [decode_str] *)

Ltac nlia := zify; Z.to_euclidean_division_equations; lia.

Ltac ltb_cases :=
  repeat match goal with
         | |- context [(?a <? ?b)%N] =>
             destruct (N.ltb_spec a b); try (exfalso; nlia)
         | |- context [(?a <=? ?b)%N] =>
             destruct (N.leb_spec a b); try (exfalso; nlia)
         end.

Ltac ok_eq E bs :=
  match type of E with
  | Ok ?l = Ok _ => assert (bs = l) by congruence; subst bs; clear E
  end.

Lemma decode_utf8_cons (b0 : N) (r0 : list N) :
  decode_utf8 (b0 :: r0) =
  if (b0 <? 128)%N then option_map (cons b0) (decode_utf8 r0)
  else if (b0 <? 192)%N then None
  else if (b0 <? 224)%N then
    match r0 with
    | b1 :: r1 =>
        let c := ((b0 - 192) * 64 + (b1 - 128))%N in
        if is_cont b1 && (128 <=? c)%N
        then option_map (cons c) (decode_utf8 r1)
        else None
    | _ => None
    end
  else if (b0 <? 240)%N then
    match r0 with
    | b1 :: b2 :: r2 =>
        let c := ((b0 - 224) * 4096 + (b1 - 128) * 64 + (b2 - 128))%N in
        if is_cont b1 && is_cont b2 && (2048 <=? c)%N
           && negb ((55296 <=? c) && (c <=? 57343))%N
        then option_map (cons c) (decode_utf8 r2)
        else None
    | _ => None
    end
  else if (b0 <? 248)%N then
    match r0 with
    | b1 :: b2 :: b3 :: r3 =>
        let c := ((b0 - 240) * 262144 + (b1 - 128) * 4096
                  + (b2 - 128) * 64 + (b3 - 128))%N in
        if is_cont b1 && is_cont b2 && is_cont b3
           && (65536 <=? c)%N && (c <? 1114112)%N
        then option_map (cons c) (decode_utf8 r3)
        else None
    | _ => None
    end
  else None.
Proof. destruct r0 as [|b1 [|b2 [|b3 r3]]]; reflexivity. Qed.

Lemma decode_utf8_char (c : N) (bs : pybytes) (rest : list N) :
  utf8_char c = Ok bs ->
  decode_utf8 (map Byte.to_N bs ++ rest) = option_map (cons c) (decode_utf8 rest).
Proof.
  unfold utf8_char.
  destruct (N.ltb_spec c 128); [| destruct (N.ltb_spec c 2048);
    [| destruct (N.ltb_spec c 65536); [| destruct (N.ltb_spec c 1114112)]]].
  - intros E. ok_eq E bs. cbn [map app]. rewrite to_N_byte_of_N by lia.
    rewrite decode_utf8_cons. ltb_cases. reflexivity.
  - intros E. ok_eq E bs. cbn [map app]. rewrite !to_N_byte_of_N by nlia.
    rewrite decode_utf8_cons. cbv iota zeta. unfold is_cont. ltb_cases. cbn [andb].
    f_equal. f_equal. nlia.
  - destruct (N.leb_spec 55296 c); [destruct (N.leb_spec c 57343) |];
      cbn [andb]; try discriminate.
    + intros E. ok_eq E bs. cbn [map app]. rewrite !to_N_byte_of_N by nlia.
      rewrite decode_utf8_cons. cbv iota zeta. unfold is_cont. ltb_cases. cbn [andb negb].
      f_equal. f_equal. nlia.
    + intros E. ok_eq E bs. cbn [map app]. rewrite !to_N_byte_of_N by nlia.
      rewrite decode_utf8_cons. cbv iota zeta. unfold is_cont. ltb_cases. cbn [andb negb].
      f_equal. f_equal. nlia.
  - intros E. ok_eq E bs. cbn [map app]. rewrite !to_N_byte_of_N by nlia.
    rewrite decode_utf8_cons. cbv iota zeta. unfold is_cont. ltb_cases. cbn [andb negb].
    f_equal. f_equal. nlia.
  - discriminate.
Qed.

Lemma decode_utf8_encode (s : pystr) :
  forall b, encode_utf8 s = Ok b -> decode_utf8 (map Byte.to_N b) = Some s.
Proof.
  induction s as [|c s IH]; intros b Hb.
  - cbn in Hb. assert (b = []) by congruence. now subst.
  - cbn [encode_utf8] in Hb.
    destruct (utf8_char c) as [bs|] eqn:Hc; [|discriminate].
    destruct (encode_utf8 s) as [rest|] eqn:Hs; [|discriminate].
    cbn [bind] in Hb. assert (b = bs ++ rest) by congruence. subst b.
    rewrite map_app, (decode_utf8_char c bs _ Hc), (IH rest eq_refl). reflexivity.
Qed.

Lemma option_map_Some {A B : Type} (f : A -> B) (o : option A) (y : B) :
  option_map f o = Some y -> exists x, o = Some x /\ y = f x.
Proof. destruct o as [x|]; [intros [= <-]; now exists x | discriminate]. Qed.

Lemma decode_utf8_shorter (n : nat) :
  forall (b t : list N),
    (length b <= n)%nat ->
    decode_utf8 b = Some t ->
    (length t <= length b)%nat /\
    (Exists (fun c => (128 <= c)%N) b -> (length t < length b)%nat).
Proof.
  induction n as [|n IH]; intros b t Hn Hb.
  - destruct b; [| cbn in Hn; lia]. cbn in Hb. assert (t = []) by congruence. subst.
    split; [reflexivity|]. intros H. inversion H.
  - destruct b as [|b0 r0].
    { cbn in Hb. assert (t = []) by congruence. subst.
      split; [reflexivity|]. intros H. inversion H. }
    rewrite decode_utf8_cons in Hb. cbn [length] in Hn.
    destruct (N.ltb_spec b0 128) as [H0|H0].
    { apply option_map_Some in Hb. destruct Hb as [t' [Ht' ->]].
      destruct (IH r0 t' ltac:(lia) Ht') as [Hle Hlt]. cbn [length].
      split; [lia|]. intros Hex. inversion Hex as [? ? Hc|? ? Hc]; subst; [lia|].
      specialize (Hlt Hc). lia. }
    destruct (b0 <? 192)%N; [discriminate|].
    destruct (b0 <? 224)%N.
    { destruct r0 as [|b1 r1]; [discriminate|]. cbv zeta in Hb.
      destruct (is_cont b1 && _); [| discriminate].
      apply option_map_Some in Hb. destruct Hb as [t' [Ht' ->]].
      cbn [length] in *. destruct (IH r1 t' ltac:(lia) Ht') as [Hle _].
      split; [lia | intros _; lia]. }
    destruct (b0 <? 240)%N.
    { destruct r0 as [|b1 [|b2 r2]]; try discriminate. cbv zeta in Hb.
      destruct (is_cont b1 && _ && _ && _); [| discriminate].
      apply option_map_Some in Hb. destruct Hb as [t' [Ht' ->]].
      cbn [length] in *. destruct (IH r2 t' ltac:(lia) Ht') as [Hle _].
      split; [lia | intros _; lia]. }
    destruct (b0 <? 248)%N; [| discriminate].
    destruct r0 as [|b1 [|b2 [|b3 r3]]]; try discriminate. cbv zeta in Hb.
    destruct (is_cont b1 && _ && _ && _ && _); [| discriminate].
    apply option_map_Some in Hb. destruct Hb as [t' [Ht' ->]].
    cbn [length] in *. destruct (IH r3 t' ltac:(lia) Ht') as [Hle _].
    split; [lia | intros _; lia].
Qed.

Lemma decode_utf8_ascii (s : pystr) :
  Forall (fun c => (c < 128)%N) s -> decode_utf8 s = Some s.
Proof.
  induction 1 as [|c s Hc Hs IH]; [reflexivity|].
  rewrite decode_utf8_cons, IH. now rewrite (proj2 (N.ltb_lt c 128) Hc).
Qed.

(** X16: [decode_str] undoes [strtobytes] on every string of ASCII
    characters and on every string that holds a code point of 256 or more
    (the strings that go out as UTF-8).  A string of Latin-1 characters
    with one of 128 or more comes back only if its bytes are not valid
    UTF-8; if they are, a shorter string comes back in its place. *)
Theorem decode_str_strtobytes (s : pystr) (b : pybytes) :
  strtobytes (PStr s) = Ok b ->
  let r := decode_str (PBuf (Buf KBytes b)) in
  (Forall (fun c => (c < 128)%N) s -> r = s) /\
  (Exists (fun c => (256 <= c)%N) s -> r = s) /\
  (Forall (fun c => (c < 256)%N) s ->
   Exists (fun c => (128 <= c)%N) s ->
   decode_utf8 s = None /\ r = s \/
   exists t, decode_utf8 s = Some t /\ r = t /\ (length t < length s)%nat).
Proof.
  intros Hb r. rewrite strtobytes_str in Hb.
  assert (Hlatin : Forall (fun c => (c < 256)%N) s ->
                   b = map byte_of_N s /\ map Byte.to_N b = s).
  { intros Hs. rewrite (proj2 (forallb_forall _ s)) in Hb.
    - assert (b = map byte_of_N s) by congruence. subst b.
      split; [reflexivity|]. exact (decode_latin1_encode s Hs).
    - intros c Hc. apply N.ltb_lt. rewrite Forall_forall in Hs. now apply Hs. }
  subst r. unfold decode_str. split; [| split].
  - intros Hs. destruct Hlatin as [_ ->].
    + eapply Forall_impl; [| exact Hs]. cbn. intros; lia.
    + now rewrite decode_utf8_ascii.
  - intros Hs.
    replace (forallb (fun c => (c <? 256)%N) s) with false in Hb.
    + now rewrite (decode_utf8_encode s b Hb).
    + symmetry. apply not_true_is_false. intros Hall.
      rewrite forallb_forall in Hall. apply Exists_exists in Hs.
      destruct Hs as [c [Hin Hc]]. specialize (Hall c Hin). apply N.ltb_lt in Hall. lia.
  - intros Hs Hex. destruct (Hlatin Hs) as [Hbs Hvals]. rewrite Hvals.
    destruct (decode_utf8 s) as [t|] eqn:Ht.
    + right. exists t. split; [reflexivity | split; [reflexivity|]].
      now apply (decode_utf8_shorter (length s) s t (le_n _) Ht).
    + left. split; [reflexivity|]. cbn [bytestostr]. unfold decode_latin1. exact Hvals.
Qed.

Lemma decode_str_strtobytes_witness :
  decode_str (PBuf (Buf KBytes [xe2; x82; xac])) = [8364%N].
Proof.
  apply (proj1 (proj2 (decode_str_strtobytes [8364%N] [xe2; x82; xac] eq_refl))).
  apply Exists_cons_hd. lia.
Defined.

End StrFnMoreFacts.

Module RfbMoreFacts.
Import Rfb RfbMore RfbFacts.

(** *** [make_header] out of range *)

Lemma pack_field_raise (f : fmt) (v : Z) (e : exn) :
  pack_field f v = Raise e -> e = StructError.
Proof.
  destruct f; cbn [pack_field]; destruct (_ && _); congruence.
Qed.

Lemma struct_pack_raise (fs : list fmt) :
  forall (vs : list Z) (e : exn), struct_pack fs vs = Raise e -> e = StructError.
Proof.
  induction fs as [|f fs IH]; intros [|v vs] e; cbn [struct_pack]; try congruence.
  destruct (pack_field f v) as [b|e'] eqn:Hf; cbn [bind].
  - destruct (struct_pack fs vs) as [rest|e''] eqn:Hs; cbn [bind]; [discriminate|].
    intros [= <-]. now apply (IH vs).
  - intros [= <-]. now apply (pack_field_raise f v).
Qed.

Lemma struct_pack_length (fs : list fmt) :
  forall (vs : list Z) (b : pybytes),
    struct_pack fs vs = Ok b -> length b = calcsize fs.
Proof.
  induction fs as [|f fs IH]; intros [|v vs] b; cbn [struct_pack]; try discriminate.
  - now intros [= <-].
  - destruct (pack_field f v) as [bf|] eqn:Hf; [|discriminate].
    destruct (struct_pack fs vs) as [rest|] eqn:Hs; [|discriminate].
    cbn [bind]. intros [= <-]. rewrite length_app, (IH vs rest Hs). cbn [calcsize fold_right].
    f_equal. destruct f; cbn [pack_field] in Hf; destruct (_ && _); try discriminate;
      injection Hf as <-; reflexivity.
Qed.

Lemma make_header_in_range (encoding x y w h : Z) (header : pybytes) :
  make_header encoding x y w h = Ok header ->
  all_in_range encoding x y w h /\ length header = 16%nat.
Proof.
  intros E. split.
  - unfold make_header in E.
    cbn [struct_pack pack_field bind] in E. unfold all_in_range, in_u16, in_i32.
    destruct (Z.leb_spec 0 x); [|discriminate].
    destruct (Z.leb_spec x 65535); [|discriminate]. cbn [andb bind] in E.
    destruct (Z.leb_spec 0 y); [|discriminate].
    destruct (Z.leb_spec y 65535); [|discriminate]. cbn [andb bind] in E.
    destruct (Z.leb_spec 0 w); [|discriminate].
    destruct (Z.leb_spec w 65535); [|discriminate]. cbn [andb bind] in E.
    destruct (Z.leb_spec 0 h); [|discriminate].
    destruct (Z.leb_spec h 65535); [|discriminate]. cbn [andb bind] in E.
    destruct (Z.leb_spec (-2147483648) encoding); [|discriminate].
    destruct (Z.leb_spec encoding 2147483647); [|discriminate].
    lia.
  - unfold make_header in E.
    destruct (struct_pack [fmt_B; fmt_B; fmt_H] [0; 0; 1]) as [fb|] eqn:E1;
      [|discriminate].
    destruct (struct_pack [fmt_H; fmt_H; fmt_H; fmt_H; fmt_i] [x; y; w; h; encoding])
      as [rect|] eqn:E2; [|discriminate].
    cbn [bind] in E. injection E as <-.
    rewrite length_app, (struct_pack_length _ _ _ E1), (struct_pack_length _ _ _ E2).
    reflexivity.
Qed.

(** X9: [make_header] fails exactly when a field of the rectangle does not
    fit an unsigned 16-bit integer or the encoding does not fit a signed
    32-bit integer, and then with [struct.error]; whenever it returns, the
    header has 16 bytes. *)
Theorem make_header_range (encoding x y w h : Z) :
  (all_in_range encoding x y w h ->
   exists header, make_header encoding x y w h = Ok header) /\
  (~ all_in_range encoding x y w h ->
   make_header encoding x y w h = Raise StructError) /\
  (forall header, make_header encoding x y w h = Ok header -> length header = 16%nat).
Proof.
  split; [|split].
  - intros (Hx & Hy & Hw & Hh & He).
    destruct (make_header_ok encoding x y w h Hx Hy Hw Hh He) as [header [E _]].
    now exists header.
  - intros Hout.
    destruct (make_header encoding x y w h) as [header|e] eqn:E.
    + exfalso. apply Hout. now apply (make_header_in_range encoding x y w h header).
    + f_equal. unfold make_header in E.
      destruct (struct_pack [fmt_B; fmt_B; fmt_H] [0; 0; 1]) as [fb|] eqn:E1;
        [|discriminate].
      cbn [bind] in E.
      destruct (struct_pack [fmt_H; fmt_H; fmt_H; fmt_H; fmt_i] [x; y; w; h; encoding])
        as [rect|e'] eqn:E2; [discriminate|].
      cbn [bind] in E. injection E as <-. now apply (struct_pack_raise _ _ _ E2).
  - intros header E. now apply (make_header_in_range encoding x y w h header).
Qed.

Lemma make_header_range_witness :
  (exists header, make_header 7 0 0 1024 768 = Ok header) /\
  make_header 0 0 0 65536 1 = Raise StructError.
Proof.
  split.
  - apply (proj1 (make_header_range 7 0 0 1024 768)).
    unfold all_in_range, in_u16, in_i32. lia.
  - apply (proj1 (proj2 (make_header_range 0 0 0 65536 1))).
    unfold all_in_range, in_u16, in_i32. lia.
Defined.

(** *** Chunks and the bytes on the wire *)

Lemma wire_joined_or_split (header : pybytes) (data : buffer) (P : Z) :
  rmap (option_map wire)
       (if buf_len data <=? P
        then d <- StrFn.memoryview_to_bytes (PBuf data) ;;
             Ok (Some [Buf KBytes (header ++ d)])
        else Ok (Some [Buf KBytes header; data])) =
  Ok (Some (header ++ buf_data data)).
Proof.
  rewrite memoryview_to_bytes_buffer. cbn [bind].
  destruct (buf_len data <=? P); cbn [rmap option_map wire map concat buf_data];
    now rewrite ?app_nil_r.
Qed.

Section Wire.

Variable RAW TIGHT : Z.
Variable restride : image -> Z -> image.
Variable encode_jpeg : image -> result buffer.

Lemma raw_encode_wire_eq (P : Z) (win : window) (x y w h : Z) :
  rmap (option_map wire) (fst (raw_encode RAW P restride win x y w h)) =
  match window_image win x y w h with
  | None => Ok None
  | Some img =>
      let img' := if get_rowstride img =? w * 4 then img else restride img (w * 4) in
      let pixels := get_pixels img' in
      if 4 * w * h <=? buf_len pixels then
        header <- make_header RAW x y w h ;;
        Ok (Some (header ++ buf_data (buf_slice_to pixels (4 * w * h))))
      else Raise AssertionError
  end.
Proof.
  unfold raw_encode, get_image. cbn [fst].
  destruct (window_image win x y w h) as [img|]; [|reflexivity].
  destruct (get_rowstride img =? w * 4); cbn [negb];
    (destruct (4 * w * h <=? _); cbn [negb]; [|reflexivity]);
    (destruct (make_header RAW x y w h) as [header|]; cbn [bind]; [|reflexivity]);
    apply wire_joined_or_split.
Qed.

Lemma tight_encode_wire_eq (P : Z) (win : window) (x y w h : Z) :
  rmap (option_map wire) (fst (tight_encode TIGHT P encode_jpeg win x y w h)) =
  match window_image win x y w h with
  | None => Ok None
  | Some img =>
      data <- encode_jpeg img ;;
      h0 <- make_header TIGHT x y w h ;;
      lh <- tight_length_header (buf_len data) ;;
      Ok (Some (((h0 ++ [x9f]) ++ lh) ++ buf_data data))
  end.
Proof.
  unfold tight_encode, get_image. cbn [fst].
  destruct (window_image win x y w h) as [img|]; [|reflexivity].
  destruct (encode_jpeg img) as [data|]; cbn [bind]; [|reflexivity].
  destruct (make_header TIGHT x y w h) as [h0|]; cbn [bind]; [|reflexivity].
  change (struct_pack [fmt_B] [128 + 31]) with (@Ok pybytes [x9f]). cbn [bind].
  destruct (tight_length_header (buf_len data)) as [lh|]; cbn [bind]; [|reflexivity].
  apply wire_joined_or_split.
Qed.

(** X10: [PACKET_JOIN_SIZE] decides only how the output is cut into chunks:
    with any two values of it, both encoders put the same bytes on the
    wire, fail in the same way, and leave the window in the same state. *)
Theorem join_size_only_chunks (P1 P2 : Z) (win : window) (x y w h : Z) :
  rmap (option_map wire) (fst (raw_encode RAW P1 restride win x y w h)) =
  rmap (option_map wire) (fst (raw_encode RAW P2 restride win x y w h)) /\
  snd (raw_encode RAW P1 restride win x y w h) =
  snd (raw_encode RAW P2 restride win x y w h) /\
  rmap (option_map wire) (fst (tight_encode TIGHT P1 encode_jpeg win x y w h)) =
  rmap (option_map wire) (fst (tight_encode TIGHT P2 encode_jpeg win x y w h)) /\
  snd (tight_encode TIGHT P1 encode_jpeg win x y w h) =
  snd (tight_encode TIGHT P2 encode_jpeg win x y w h).
Proof.
  rewrite !raw_encode_wire_eq, !tight_encode_wire_eq. repeat split.
Qed.

(** X11: whenever [raw_encode] returns chunks, the bytes they put on the
    wire are the 16-byte header followed by exactly [4*w*h] bytes, the first
    of the image's pixels. *)
Theorem raw_encode_wire (P : Z) (win : window) (x y w h : Z) (chunks : list buffer) :
  fst (raw_encode RAW P restride win x y w h) = Ok (Some chunks) ->
  exists (img : image) (header : pybytes),
    window_image win x y w h = Some img /\
    make_header RAW x y w h = Ok header /\
    let img' := if get_rowstride img =? w * 4 then img else restride img (w * 4) in
    wire chunks = header ++ firstn (Z.to_nat (4 * w * h)) (buf_data (get_pixels img')) /\
    len (wire chunks) = 16 + 4 * w * h.
Proof.
  intros Hc. pose proof (raw_encode_wire_eq P win x y w h) as E.
  rewrite Hc in E. cbn [rmap option_map] in E.
  destruct (window_image win x y w h) as [img|]; [|discriminate].
  exists img. cbv zeta in E.
  set (img' := if get_rowstride img =? w * 4 then img else restride img (w * 4)) in *.
  destruct (Z.leb_spec (4 * w * h) (buf_len (get_pixels img'))) as [Hlen|]; [|discriminate].
  destruct (make_header RAW x y w h) as [header|] eqn:Hh; [|discriminate].
  cbn [bind] in E.
  assert (E' : wire chunks =
               header ++ buf_data (buf_slice_to (get_pixels img') (4 * w * h)))
    by congruence.
  clear E. rename E' into E. exists header.
  destruct (make_header_in_range RAW x y w h header Hh) as [(_ & _ & Hw & Hh' & _) L16].
  assert (H0 : 0 <= 4 * w * h) by (unfold in_u16 in *; nia).
  destruct (slice_to_firstn (buf_data (get_pixels img')) (4 * w * h)) as [Hs Hl];
    [unfold buf_len in Hlen; lia|].
  split; [reflexivity|]. split; [reflexivity|]. cbv zeta.
  cbn [buf_slice_to buf_data] in E. rewrite E, <- Hs. split; [reflexivity|].
  unfold len in *. rewrite length_app, L16. lia.
Qed.

End Wire.

Lemma raw_encode_wire_witness :
  exists (img : image) (header : pybytes),
    window_image sample_window 3 4 1 2 = Some img /\
    make_header 0 3 4 1 2 = Ok header /\
    let img' := if get_rowstride img =? 1 * 4 then img else sample_restride img (1 * 4) in
    wire [Buf KBytes [x00; x00; x00; x01; x00; x03; x00; x04; x00; x01; x00; x02;
                      x00; x00; x00; x00];
          Buf KMemoryView [x01; x02; x03; x04; x05; x06; x07; x08]] =
    header ++ firstn (Z.to_nat (4 * 1 * 2)) (buf_data (get_pixels img')) /\
    len (wire [Buf KBytes [x00; x00; x00; x01; x00; x03; x00; x04; x00; x01; x00; x02;
                           x00; x00; x00; x00];
               Buf KMemoryView [x01; x02; x03; x04; x05; x06; x07; x08]]) = 16 + 4 * 1 * 2.
Proof.
  apply (raw_encode_wire 0 sample_restride 7 sample_window 3 4 1 2). reflexivity.
Defined.

(** *** Reading the TIGHT length header back *)

Lemma land_127 (v : Z) : Z.land v 127 = v mod 128.
Proof. change 127 with (Z.ones 7). now rewrite Z.land_ones by lia. Qed.

Lemma pack_bytes_values (vs : list Z) :
  Forall (fun v => 0 <= v < 256) vs ->
  rmap byte_values (struct_pack (map (fun _ => fmt_B) vs) vs) = Ok vs.
Proof.
  induction 1 as [|v vs Hv _ IH]; [reflexivity|].
  cbn [map struct_pack]. change (@Ok (list Z) (v :: vs)) with (@Ok (list Z) ([v] ++ vs)).
  apply rmap_bind_app; [now apply pack_B_values | assumption].
Qed.

Lemma tight_length_header_values (L : Z) :
  0 <= L < 4194303 ->
  rmap byte_values (tight_length_header L) = Ok (compact_length L).
Proof.
  intros HL. unfold tight_length_header, compact_length.
  rewrite !land_127, !Z.shiftr_div_pow2 by lia.
  change (2 ^ 7) with 128. change (2 ^ 14) with 16384.
  pose proof (Z.mod_pos_bound L 128 ltac:(lia)).
  pose proof (Z.mod_pos_bound (L / 128) 128 ltac:(lia)).
  destruct (Z.ltb_spec L 128).
  - apply (pack_bytes_values [L]). repeat constructor; lia.
  - assert (0 <= L / 128) by (apply Z.div_pos; lia).
    destruct (Z.ltb_spec L 16383).
    + assert (L / 128 < 128) by (apply Z.div_lt_upper_bound; lia).
      apply (pack_bytes_values [_; _]). repeat constructor; lia.
    + destruct (Z.ltb_spec L 4194303); [|lia]. cbn [negb].
      assert (0 <= L / 16384 < 256)
        by (split; [apply Z.div_pos | apply Z.div_lt_upper_bound]; lia).
      apply (pack_bytes_values [_; _; _]). repeat constructor; lia.
Qed.

Lemma tight_length_header_domain (L : Z) (lh : pybytes) :
  tight_length_header L = Ok lh -> 0 <= L < 4194303.
Proof.
  unfold tight_length_header.
  destruct (Z.ltb_spec L 128).
  - cbn [struct_pack pack_field]. destruct (Z.leb_spec 0 L); [lia|discriminate].
  - destruct (Z.ltb_spec L 16383); [lia|].
    destruct (Z.ltb_spec L 4194303); [lia | discriminate].
Qed.

Lemma compact_length_reads_back (L : Z) (rest : list Z) :
  0 <= L < 4194303 ->
  read_compact_length (compact_length L ++ rest) = Some (L, rest).
Proof.
  intros HL. unfold compact_length.
  pose proof (Z.mod_pos_bound L 128 ltac:(lia)).
  pose proof (Z.mod_pos_bound (L / 128) 128 ltac:(lia)).
  pose proof (Z.div_mod L 128 ltac:(lia)).
  pose proof (Z.div_mod (L / 128) 128 ltac:(lia)).
  assert (E : L / 16384 = L / 128 / 128) by (rewrite Z.div_div by lia; reflexivity).
  destruct (Z.ltb_spec L 128); cbn [app read_compact_length].
  - destruct (Z.ltb_spec L 128); [reflexivity | lia].
  - destruct (Z.ltb_spec L 16383); cbn [app read_compact_length].
    + destruct (Z.ltb_spec (128 + L mod 128) 128); [lia|].
      assert (L / 128 < 128) by (apply Z.div_lt_upper_bound; lia).
      destruct (Z.ltb_spec (L / 128) 128); [|lia].
      do 2 f_equal. lia.
    + destruct (Z.ltb_spec (128 + L mod 128) 128); [lia|].
      destruct (Z.ltb_spec (128 + (L / 128) mod 128) 128); [lia|].
      do 2 f_equal. rewrite E. lia.
Qed.

Section Tight.

Variable TIGHT : Z.
Variable encode_jpeg : image -> result buffer.

(** X12: whenever [tight_encode] returns chunks, the bytes they put on the
    wire are the 16-byte header, the byte 0x9F, a length header of one to
    three bytes, and the encoder's data unchanged; a receiver that reads the
    length header with its continuation bits gets the size of the data and
    is left at the first byte of the data. *)
Theorem tight_encode_reads_back (P : Z) (win : window) (x y w h : Z)
        (img : image) (data : buffer) (chunks : list buffer) :
  window_image win x y w h = Some img ->
  encode_jpeg img = Ok data ->
  fst (tight_encode TIGHT P encode_jpeg win x y w h) = Ok (Some chunks) ->
  exists (header lh : pybytes),
    make_header TIGHT x y w h = Ok header /\
    wire chunks = header ++ [x9f] ++ lh ++ buf_data data /\
    length header = 16%nat /\
    (1 <= length lh <= 3)%nat /\
    read_compact_length (byte_values (skipn 17 (wire chunks))) =
    Some (buf_len data, byte_values (buf_data data)).
Proof.
  intros Himg Hdata Hc.
  pose proof (tight_encode_wire_eq TIGHT encode_jpeg P win x y w h) as E.
  rewrite Hc, Himg, Hdata in E. cbn [rmap option_map bind] in E.
  destruct (make_header TIGHT x y w h) as [header|] eqn:Hh; [|discriminate].
  destruct (tight_length_header (buf_len data)) as [lh|] eqn:Hl; [|discriminate].
  cbn [bind] in E.
  assert (E' : wire chunks = ((header ++ [x9f]) ++ lh) ++ buf_data data) by congruence.
  clear E. exists header, lh.
  destruct (make_header_in_range TIGHT x y w h header Hh) as [_ L16].
  pose proof (tight_length_header_domain _ _ Hl) as HL.
  pose proof (tight_length_header_values _ HL) as Hv.
  rewrite Hl in Hv. cbn [rmap] in Hv.
  assert (Hv' : byte_values lh = compact_length (buf_len data)) by congruence.
  split; [reflexivity|]. split; [now rewrite E', <- !app_assoc|].
  split; [assumption|]. split.
  - apply (f_equal (@length Z)) in Hv'. unfold byte_values in Hv'.
    rewrite length_map in Hv'. rewrite Hv'. unfold compact_length.
    destruct (_ <? 128); [cbn; lia|]. destruct (_ <? 16383); cbn; lia.
  - rewrite E', <- !app_assoc.
    replace 17%nat with (length (header ++ [x9f])) by (rewrite length_app, L16; reflexivity).
    rewrite app_assoc, skipn_app, Nat.sub_diag, skipn_all, skipn_O. cbn [app].
    unfold byte_values in *. rewrite map_app, Hv'.
    now apply compact_length_reads_back.
Qed.

End Tight.

Lemma tight_encode_reads_back_witness :
  let encode := fun img : image => Ok (get_pixels img) in
  exists (header lh : pybytes),
    make_header 7 3 4 1 2 = Ok header /\
    wire [Buf KBytes [x00; x00; x00; x01; x00; x03; x00; x04; x00; x01; x00; x02;
                      x00; x00; x00; x07; x9f; x10];
          Buf KMemoryView sample_pixels] =
    header ++ [x9f] ++ lh ++ sample_pixels /\
    length header = 16%nat /\
    (1 <= length lh <= 3)%nat /\
    read_compact_length
      (byte_values
         (skipn 17
            (wire [Buf KBytes [x00; x00; x00; x01; x00; x03; x00; x04; x00; x01; x00; x02;
                               x00; x00; x00; x07; x9f; x10];
                   Buf KMemoryView sample_pixels]))) =
    Some (16, byte_values sample_pixels).
Proof.
  intros encode.
  apply (tight_encode_reads_back 7 encode 7 sample_window 3 4 1 2
           (Image 8 (Buf KMemoryView sample_pixels)) (Buf KMemoryView sample_pixels));
    reflexivity.
Defined.

End RfbMoreFacts.

Module FilePrintFacts.
Import StrFn FilePrint FilePrintSpec.

(** *** [choose_socket_path] *)

Lemma find_first {A : Type} (f : A -> bool) (l : list A) :
  match find f l with
  | Some x =>
      exists before after,
        l = before ++ x :: after /\ f x = true /\ forall q, In q before -> f q = false
  | None => forall q, In q l -> f q = false
  end.
Proof.
  induction l as [|a l IH]; cbn [find]; [intros q []|].
  destruct (f a) eqn:Ha.
  - exists [], l. repeat split; auto. intros q [].
  - destruct (find f l) as [x|].
    + destruct IH as (before & after & -> & Hx & Hb).
      exists (a :: before), after. repeat split; auto.
      intros q [<-|Hq]; auto.
    + intros q [<-|Hq]; auto.
Qed.

(** X13: [choose_socket_path] fails its assertion on an empty list;
    otherwise it returns one of the given paths, of the best rank there is
    among them (under [/run] before [/var] before [/tmp] before anything
    else), and the first of that rank in the order given. *)
Theorem choose_socket_path_best (paths : list pystr) :
  (paths = [] -> choose_socket_path paths = Raise AssertionError) /\
  (paths <> [] ->
   exists (p : pystr) (before after : list pystr),
     choose_socket_path paths = Ok p /\
     paths = before ++ p :: after /\
     (forall q, In q before -> (path_rank p < path_rank q)%nat) /\
     (forall q, In q after -> (path_rank p <= path_rank q)%nat)).
Proof.
  split; [intros ->; reflexivity|].
  destruct paths as [|first rest]; [congruence|]. intros _.
  set (paths := first :: rest).
  unfold choose_socket_path. fold paths. cbn [first_under].
  change (lit "/" ++ lit "run") with (lit "/run").
  change (lit "/" ++ lit "var") with (lit "/var").
  change (lit "/" ++ lit "tmp") with (lit "/tmp").
  pose proof (find_first (fun x => startswith x (lit "/run")) paths) as Hrun.
  pose proof (find_first (fun x => startswith x (lit "/var")) paths) as Hvar.
  pose proof (find_first (fun x => startswith x (lit "/tmp")) paths) as Htmp.
  assert (Hin : forall before p after q,
             paths = before ++ p :: after -> In q before \/ In q after -> In q paths).
  { intros before p after q -> [H|H]; apply in_or_app; [now left | right; now right]. }
  destruct (find _ paths) as [p|].
  { destruct Hrun as (before & after & E & Hp & Hb).
    exists p, before, after. repeat split; auto; unfold path_rank; rewrite Hp.
    - intros q Hq. rewrite (Hb q Hq).
      destruct (startswith q _); [|destruct (startswith q _)]; lia.
    - intros q _. lia. }
  destruct (find _ paths) as [p|].
  { destruct Hvar as (before & after & E & Hp & Hb).
    exists p, before, after. repeat split; auto; unfold path_rank;
      rewrite (Hrun p) by (rewrite E; apply in_or_app; right; now left); rewrite Hp.
    - intros q Hq. rewrite (Hrun q), (Hb q Hq) by (apply (Hin before p after); auto).
      destruct (startswith q _); lia.
    - intros q Hq. rewrite (Hrun q) by (apply (Hin before p after); auto).
      destruct (startswith q _); [|destruct (startswith q _)]; lia. }
  destruct (find _ paths) as [p|].
  { destruct Htmp as (before & after & E & Hp & Hb).
    exists p, before, after. repeat split; auto; unfold path_rank;
      rewrite (Hrun p), (Hvar p) by (rewrite E; apply in_or_app; right; now left);
      rewrite Hp.
    - intros q Hq.
      rewrite (Hrun q), (Hvar q), (Hb q Hq) by (apply (Hin before p after); auto). lia.
    - intros q Hq. rewrite (Hrun q), (Hvar q) by (apply (Hin before p after); auto).
      destruct (startswith q _); lia. }
  exists first, [], rest. repeat split; auto.
  - intros q [].
  - intros q Hq. unfold path_rank.
    rewrite (Hrun first), (Hvar first), (Htmp first) by now left.
    rewrite (Hrun q), (Hvar q), (Htmp q) by now right. lia.
Qed.

Lemma choose_socket_path_best_witness :
  exists (p : pystr) (before after : list pystr),
    choose_socket_path [lit "/home/u/.xpra/s"; lit "/tmp/s"; lit "/run/user/1/s"; lit "/run/s"]
    = Ok p /\
    [lit "/home/u/.xpra/s"; lit "/tmp/s"; lit "/run/user/1/s"; lit "/run/s"]
    = before ++ p :: after /\
    (forall q, In q before -> (path_rank p < path_rank q)%nat) /\
    (forall q, In q after -> (path_rank p <= path_rank q)%nat).
Proof.
  apply (proj2 (choose_socket_path_best
                  [lit "/home/u/.xpra/s"; lit "/tmp/s"; lit "/run/user/1/s"; lit "/run/s"])).
  discriminate.
Defined.

(** *** Dictionaries and sets *)

Lemma str_eqb_eq (a b : pystr) : str_eqb a b = true <-> a = b.
Proof. unfold str_eqb. destruct (list_eq_dec N.eq_dec a b); split; congruence. Qed.

Lemma str_eqb_refl (a : pystr) : str_eqb a a = true.
Proof. now apply str_eqb_eq. Qed.

Lemma str_eqb_neq (a b : pystr) : a <> b -> str_eqb a b = false.
Proof. intros H. destruct (str_eqb a b) eqn:E; [apply str_eqb_eq in E; contradiction | reflexivity]. Qed.

Lemma set_has_In (s : list pystr) (k : pystr) : set_has s k = true <-> In k s.
Proof.
  unfold set_has. rewrite existsb_exists. split.
  - intros [x [Hx E]]. apply str_eqb_eq in E. now subst.
  - intros H. exists k. split; [assumption | apply str_eqb_refl].
Qed.

Lemma set_has_not_In (s : list pystr) (k : pystr) : ~ In k s -> set_has s k = false.
Proof.
  intros H. destruct (set_has s k) eqn:E; [apply set_has_In in E; contradiction | reflexivity].
Qed.

Lemma set_has_remove_other (s : list pystr) (k k' : pystr) :
  k <> k' -> set_has (set_remove s k) k' = set_has s k'.
Proof.
  intros Hk. unfold set_has, set_remove. induction s as [|x s IH]; [reflexivity|].
  cbn [filter existsb]. destruct (str_eqb k x) eqn:E; cbn [negb existsb].
  - apply str_eqb_eq in E. subst x. rewrite IH.
    now rewrite (str_eqb_neq k' k) by congruence.
  - now rewrite IH.
Qed.

Lemma dict_get_pop_other {V : Type} (d : dict V) (k k' : pystr) :
  k <> k' -> dict_get (dict_pop d k) k' = dict_get d k'.
Proof.
  intros Hk. unfold dict_pop. induction d as [|[x v] d IH]; [reflexivity|].
  cbn [filter fst dict_get]. destruct (str_eqb k x) eqn:E; cbn [negb dict_get].
  - apply str_eqb_eq in E. subst x. rewrite IH.
    now rewrite (str_eqb_neq k' k) by congruence.
  - now rewrite IH.
Qed.

Lemma filter_filter {A : Type} (f g : A -> bool) (l : list A) :
  filter g (filter f l) = filter (fun x => f x && g x) l.
Proof.
  induction l as [|a l IH]; [reflexivity|]. cbn [filter].
  destruct (f a); cbn [filter andb]; [destruct (g a)|]; now rewrite IH.
Qed.

(** *** [remove_printer], [remove_printers] *)

Section Removal.

Variable props : Type.
Variable get_machine_id : pystr.
Variable ADD_LOCAL_PRINTERS : bool.

Lemma remove_printer_each (l : list pystr) :
  forall st : mixin props,
    NoDup l ->
    (forall k, In k l -> In k (printers_added st)) ->
    fold_left remove_printer l st =
    set_state st (printers st)
              (filter (fun x => negb (set_has l x)) (printers_added st))
              (cups st ++ map RemovePrinter l).
Proof.
  induction l as [|k l IH]; intros st Hnd Hin.
  - cbn. destruct st as [ps added mid uu hn paths calls]. unfold set_state. cbn.
    rewrite app_nil_r. f_equal. induction added as [|a added IHa]; [reflexivity|].
    cbn. f_equal. apply IHa. intros k [].
  - cbn [fold_left]. inversion Hnd as [|? ? Hk Hnd']; subst.
    unfold remove_printer at 2.
    rewrite (proj2 (set_has_In _ _) (Hin k (or_introl eq_refl))).
    rewrite IH; [| assumption |].
    + destruct st as [ps added mid uu hn paths calls]. unfold set_state. cbn.
      f_equal.
      * unfold set_remove. rewrite filter_filter. apply filter_ext. intros x.
        destruct (list_eq_dec N.eq_dec x k) as [->|Hx].
        -- now rewrite str_eqb_refl.
        -- rewrite (str_eqb_neq k x) by congruence.
           now rewrite (str_eqb_neq x k) by assumption.
      * now rewrite <- app_assoc.
    + intros k' Hk'. cbn. apply set_has_In.
      rewrite set_has_remove_other by (intros ->; contradiction).
      apply set_has_In. apply Hin. now right.
Qed.

Lemma filter_none (l : list pystr) :
  filter (fun x => negb (set_has l x)) l = [].
Proof.
  assert (H : forall m, (forall x, In x m -> In x l) ->
                        filter (fun x => negb (set_has l x)) m = []).
  { induction m as [|a m IH]; intros Hm; [reflexivity|]. cbn.
    rewrite (proj2 (set_has_In l a)) by (apply Hm; now left). cbn.
    apply IH. intros x Hx. apply Hm. now right. }
  apply H. auto.
Qed.

(** X14: [remove_printers] does nothing for a local client (same machine
    id, local printers not asked for).  For any other client it forgets
    every printer and asks the backend to remove each printer it had added,
    once, in the order of the set, and no other; the set is empty
    afterwards.  [remove_printer] on a printer that was not added changes
    nothing and makes no call. *)
Theorem remove_printers_spec (st : mixin props) :
  NoDup (printers_added st) ->
  (is_local get_machine_id ADD_LOCAL_PRINTERS st = true ->
   remove_printers get_machine_id ADD_LOCAL_PRINTERS st = st) /\
  (is_local get_machine_id ADD_LOCAL_PRINTERS st = false ->
   remove_printers get_machine_id ADD_LOCAL_PRINTERS st =
   set_state st [] [] (cups st ++ map RemovePrinter (printers_added st))) /\
  (forall k, ~ In k (printers_added st) -> remove_printer st k = st).
Proof.
  intros Hnd. unfold remove_printers. repeat split.
  - intros ->. reflexivity.
  - intros ->. rewrite remove_printer_each.
    + destruct st as [ps added mid uu hn paths calls]. unfold set_state.
      cbn -[set_has filter]. now rewrite filter_none.
    + destruct st; exact Hnd.
    + destruct st; cbn. auto.
  - intros k Hk. unfold remove_printer. now rewrite set_has_not_In.
Qed.

End Removal.

Lemma remove_printers_spec_witness :
  let st := @Mixin unit [(lit "p1", tt)] [lit "p1"; lit "p2"] (lit "m1") (lit "u")
                   (lit "host") [] [] in
  remove_printers (lit "m0") false st =
  set_state st [] [] [RemovePrinter (lit "p1"); RemovePrinter (lit "p2")].
Proof.
  intros st.
  refine (proj1 (proj2 (remove_printers_spec unit (lit "m0") false st _)) _).
  - repeat constructor; cbn; intuition discriminate.
  - reflexivity.
Defined.

(** *** [set_printers] *)

Lemma filter_all {A : Type} (f : A -> bool) (l : list A) :
  (forall x, In x l -> f x = true) -> filter f l = l.
Proof.
  induction l as [|a l IH]; intros H; [reflexivity|]. cbn.
  rewrite (H a (or_introl eq_refl)). f_equal. apply IH. intros x Hx. apply H. now right.
Qed.

Lemma dict_get_pop_same {V : Type} (d : dict V) (k : pystr) :
  dict_get (dict_pop d k) k = None.
Proof.
  unfold dict_pop. induction d as [|[x v] d IH]; [reflexivity|].
  cbn [filter fst]. destruct (str_eqb k x) eqn:E; cbn [negb dict_get]; [assumption|].
  now rewrite E.
Qed.

Lemma dict_get_In {V : Type} (d : dict V) (k : pystr) :
  dict_get d k <> None <-> In k (dict_keys d).
Proof.
  induction d as [|[x v] d IH]; cbn [dict_get dict_keys map fst In].
  - split; [congruence | intros []].
  - destruct (str_eqb k x) eqn:E.
    + apply str_eqb_eq in E. subst. split; [now left | discriminate].
    + rewrite IH. split; [now right|]. intros [->|H]; [| exact H].
      now rewrite str_eqb_refl in E.
Qed.

Lemma dict_has_In {V : Type} (d : dict V) (k : pystr) :
  dict_has d k = true <-> In k (dict_keys d).
Proof. apply set_has_In. Qed.

Lemma dict_get_filter_key {V : Type} (f : pystr -> bool) (d : dict V) (k : pystr) :
  f k = true -> dict_get (filter (fun kv => f (fst kv)) d) k = dict_get d k.
Proof.
  intros Hk. induction d as [|[x v] d IH]; [reflexivity|].
  cbn [filter fst dict_get]. destruct (str_eqb k x) eqn:E.
  - apply str_eqb_eq in E. subst x. rewrite Hk. cbn. now rewrite str_eqb_refl.
  - destruct (f x); [cbn; now rewrite E | assumption].
Qed.

Lemma dict_keys_filter {V : Type} (f : pystr -> bool) (d : dict V) :
  dict_keys (filter (fun kv => f (fst kv)) d) = filter f (dict_keys d).
Proof.
  induction d as [|[x v] d IH]; [reflexivity|]. cbn [filter fst dict_keys map].
  destruct (f x); cbn [map fst]; [f_equal|]; exact IH.
Qed.

Lemma filter_pop {V : Type} (f : pystr * V -> bool) (d : dict V) (k : pystr) :
  filter f (dict_pop d k) = filter (fun kv => negb (str_eqb k (fst kv)) && f kv) d.
Proof. unfold dict_pop. apply filter_filter. Qed.

Lemma NoDup_snoc {A : Type} (l : list A) (a : A) :
  NoDup l -> ~ In a l -> NoDup (l ++ [a]).
Proof.
  induction l as [|x l IH]; intros Hl Ha; cbn [app].
  - constructor; [intros [] | constructor].
  - inversion Hl as [|? ? Hx Hl']; subst. constructor.
    + rewrite in_app_iff. intros [H|[H|[]]]; [contradiction|]. subst. apply Ha. now left.
    + apply IH; [assumption|]. intros H. apply Ha. now right.
Qed.

Lemma set_remove_In (s : list pystr) (x k : pystr) :
  In k (set_remove s x) <-> In k s /\ k <> x.
Proof.
  unfold set_remove. rewrite filter_In, negb_true_iff. split; intros [H1 H2]; split; auto.
  - intros ->. now rewrite str_eqb_refl in H2.
  - apply str_eqb_neq. congruence.
Qed.

Ltac by_key x k :=
  destruct (list_eq_dec N.eq_dec x k) as [->|?];
  [ rewrite ?str_eqb_refl
  | rewrite ?(str_eqb_neq x k), ?(str_eqb_neq k x) by congruence ].

Section Printers.

Variable props : Type.
Variable props_eq : props -> props -> bool.
Variable strget : props -> pystr -> option pystr -> option pystr.
Variable get_machine_id : pystr.
Variable ADD_LOCAL_PRINTERS : bool.
Variable PRINTER_LOCATION_STRING : pystr.
Variable DISPLAY : option pystr.
Variable makeabs : pystr -> pystr.
Variable add_printer : list (cups_call props) -> add_outcome.

Lemma unchanged_pop_new (old new : dict props) (k k' : pystr) :
  k <> k' -> unchanged props_eq old (dict_pop new k) k' = unchanged props_eq old new k'.
Proof. intros H. unfold unchanged. now rewrite dict_get_pop_other. Qed.

Lemma unchanged_pop_old (old new : dict props) (k k' : pystr) :
  k <> k' -> unchanged props_eq (dict_pop old k) new k' = unchanged props_eq old new k'.
Proof. intros H. unfold unchanged. now rewrite dict_get_pop_other. Qed.

Lemma drop_changed_each (ks : list pystr) :
  forall (st : mixin props) (arg : dict props),
    NoDup ks ->
    (forall k, In k ks -> dict_get (printers st) k <> None) ->
    fold_left (drop_changed props_eq) ks (st, arg) =
    (set_state st
       (filter (fun kv => negb (set_has ks (fst kv) &&
                                negb (unchanged props_eq (printers st) arg (fst kv))))
               (printers st))
       (filter (fun k => negb (set_has ks k &&
                               negb (unchanged props_eq (printers st) arg k)))
               (printers_added st))
       (cups st ++
        map RemovePrinter
            (filter (fun k => set_has (printers_added st) k &&
                              negb (unchanged props_eq (printers st) arg k)) ks)),
     filter (fun kv => negb (set_has ks (fst kv) &&
                             unchanged props_eq (printers st) arg (fst kv))) arg).
Proof.
  induction ks as [|k ks IH]; intros st arg Hnd Hin.
  - cbn. rewrite app_nil_r. rewrite !filter_all by reflexivity.
    now destruct st.
  - inversion Hnd as [|? ? Hk Hnd']; subst.
    cbn [fold_left]. unfold drop_changed at 2.
    assert (Hsame : match dict_get (printers st) k, dict_get arg k with
                    | Some cpd, Some npd => props_eq cpd npd
                    | None, None => true
                    | _, _ => false
                    end = unchanged props_eq (printers st) arg k).
    { unfold unchanged. specialize (Hin k (or_introl eq_refl)).
      destruct (dict_get (printers st) k); [reflexivity | congruence]. }
    rewrite Hsame. clear Hsame.
    destruct (unchanged props_eq (printers st) arg k) eqn:Hu.
    + rewrite IH by (try assumption; intros k' Hk'; apply Hin; now right).
      destruct st as [ps added mid uu hn paths calls]. unfold set_state.
      cbn [printers printers_added machine_id uuid hostname unix_socket_paths cups] in *.
      f_equal; [f_equal|].
      * apply filter_ext. intros [x v]. cbn [fst set_has existsb].
        by_key x k.
        -- rewrite Hu. rewrite (set_has_not_In ks k Hk). reflexivity.
        -- cbn [orb]. fold (set_has ks x).
           now rewrite unchanged_pop_new by congruence.
      * apply filter_ext. intros x. cbn [set_has existsb].
        by_key x k.
        -- rewrite Hu. rewrite (set_has_not_In ks k Hk). reflexivity.
        -- cbn [orb]. fold (set_has ks x).
           now rewrite unchanged_pop_new by congruence.
      * f_equal. f_equal. cbn [filter]. rewrite Hu.
        rewrite andb_false_r. apply filter_ext_in. intros x Hx.
        rewrite unchanged_pop_new by (intros ->; contradiction). reflexivity.
      * rewrite filter_pop. apply filter_ext. intros [x v].
        cbn [fst set_has existsb]. by_key x k.
        -- rewrite Hu. reflexivity.
        -- cbn [negb orb andb]. fold (set_has ks x).
           now rewrite unchanged_pop_new by congruence.
    + assert (Hrest : forall k', In k' ks -> dict_get (dict_pop (printers st) k) k' <> None).
      { intros k' Hk'. rewrite dict_get_pop_other by (intros ->; contradiction).
        apply Hin. now right. }
      unfold remove_printer.
      destruct st as [ps added mid uu hn paths calls]. unfold set_state.
      cbn [printers printers_added machine_id uuid hostname unix_socket_paths cups] in *.
      destruct (set_has added k) eqn:Ha.
      * rewrite IH by assumption. unfold set_state.
        cbn [printers printers_added machine_id uuid hostname unix_socket_paths cups].
        f_equal; [f_equal|].
        -- rewrite filter_pop. apply filter_ext. intros [x v].
           cbn [fst set_has existsb]. by_key x k.
           ++ rewrite Hu. reflexivity.
           ++ cbn [negb orb andb]. fold (set_has ks x).
              now rewrite unchanged_pop_old by congruence.
        -- unfold set_remove. rewrite filter_filter. apply filter_ext. intros x.
           cbn [set_has existsb]. by_key x k.
           ++ rewrite Hu. reflexivity.
           ++ cbn [negb orb andb]. fold (set_has ks x).
              now rewrite unchanged_pop_old by congruence.
        -- cbn [filter]. rewrite Ha, Hu. cbn [negb andb map].
           rewrite <- app_assoc. cbn [app]. do 3 f_equal.
           apply filter_ext_in. intros x Hx.
           assert (k <> x) by (intros ->; contradiction).
           rewrite set_has_remove_other by assumption.
           now rewrite unchanged_pop_old by assumption.
        -- apply filter_ext. intros [x v]. cbn [fst set_has existsb]. by_key x k.
           ++ rewrite Hu. rewrite (set_has_not_In ks k Hk). reflexivity.
           ++ cbn [negb orb andb]. fold (set_has ks x).
              now rewrite unchanged_pop_old by congruence.
      * rewrite IH by assumption. unfold set_state.
        cbn [printers printers_added machine_id uuid hostname unix_socket_paths cups].
        f_equal; [f_equal|].
        -- rewrite filter_pop. apply filter_ext. intros [x v].
           cbn [fst set_has existsb]. by_key x k.
           ++ rewrite Hu. reflexivity.
           ++ cbn [negb orb andb]. fold (set_has ks x).
              now rewrite unchanged_pop_old by congruence.
        -- apply filter_ext_in. intros x Hx. cbn [set_has existsb].
           assert (x <> k).
           { intros ->. apply set_has_In in Hx. congruence. }
           rewrite (str_eqb_neq x k) by assumption. cbn [orb]. fold (set_has ks x).
           now rewrite unchanged_pop_old by congruence.
        -- cbn [filter]. rewrite Ha. cbn [andb]. do 2 f_equal.
           apply filter_ext_in. intros x Hx.
           assert (k <> x) by (intros ->; contradiction).
           now rewrite unchanged_pop_old by assumption.
        -- apply filter_ext. intros [x v]. cbn [fst set_has existsb]. by_key x k.
           ++ rewrite Hu. rewrite (set_has_not_In ks k Hk). reflexivity.
           ++ cbn [negb orb andb]. fold (set_has ks x).
              now rewrite unchanged_pop_old by congruence.
Qed.

Lemma setup_printer_calls (st : mixin props) (k : pystr) (p : props)
      (attributes : dict (option pystr)) :
  let st' := setup_printer strget PRINTER_LOCATION_STRING add_printer st k p attributes in
  (exists c, adds_printer PRINTER_LOCATION_STRING st (k, p) c /\ cups st' = cups st ++ [c]) /\
  hostname st' = hostname st /\
  (printers st' = printers st /\ printers_added st' = printers_added st \/
   printers st' = dict_set (printers st) k p /\
   printers_added st' = set_add (printers_added st) k).
Proof.
  unfold setup_printer. cbn zeta.
  match goal with |- context [add_printer ?t] => destruct (add_printer t) end;
    destruct st as [ps added mid uu hn paths calls];
    unfold printer_added, set_state;
    cbn [printers printers_added machine_id uuid hostname unix_socket_paths cups];
    (split; [eexists; split; [eexists; eexists; reflexivity | reflexivity] |]);
    (split; [reflexivity|]); auto.
Qed.

Lemma dict_get_set_other {V : Type} (d : dict V) (k k' : pystr) (v : V) :
  k <> k' -> dict_get (dict_set d k v) k' = dict_get d k'.
Proof.
  intros Hk. induction d as [|[x w] d IH]; cbn [dict_set dict_get].
  - now rewrite (str_eqb_neq k' k) by congruence.
  - destruct (str_eqb k x) eqn:E; cbn [dict_get].
    + apply str_eqb_eq in E. subst x. now rewrite (str_eqb_neq k' k) by congruence.
    + now rewrite IH.
Qed.

Lemma dict_has_get {V : Type} (d : dict V) (k : pystr) :
  dict_has d k = false <-> dict_get d k = None.
Proof.
  split; intros H.
  - destruct (dict_get d k) eqn:E; [| reflexivity].
    assert (Hin : In k (dict_keys d)) by (apply dict_get_In; congruence).
    apply dict_has_In in Hin. congruence.
  - destruct (dict_has d k) eqn:E; [| reflexivity].
    apply dict_has_In, dict_get_In in E. contradiction.
Qed.

Lemma add_new_each (attributes : dict (option pystr)) (new : dict props) :
  forall st : mixin props,
    NoDup (dict_keys new) ->
    (forall k, In k (dict_keys new) -> dict_get (printers st) k = None) ->
    let st' := fold_left (add_new strget PRINTER_LOCATION_STRING add_printer attributes)
                         new st in
    (exists adds, cups st' = cups st ++ adds /\
                  Forall2 (adds_printer PRINTER_LOCATION_STRING st) new adds) /\
    hostname st' = hostname st /\
    (forall k, ~ In k (dict_keys new) -> dict_get (printers st') k = dict_get (printers st) k).
Proof.
  induction new as [|[k p] new IH]; intros st Hnd Hout; cbn zeta.
  - cbn [fold_left]. split; [exists []; split; [now rewrite app_nil_r | constructor] |].
    split; [reflexivity | auto].
  - cbn [fold_left].
    assert (Hstep : add_new strget PRINTER_LOCATION_STRING add_printer attributes st (k, p) =
                    setup_printer strget PRINTER_LOCATION_STRING add_printer st k p attributes).
    { unfold add_new. cbn [fst snd].
      now rewrite (proj2 (dict_has_get (printers st) k)) by (apply Hout; now left). }
    rewrite Hstep. clear Hstep.
    inversion Hnd as [|? ? Hk Hnd']; subst.
    destruct (setup_printer_calls st k p attributes) as [[c [Hc Hcups]] [Hhost Hreg]].
    set (st1 := setup_printer strget PRINTER_LOCATION_STRING add_printer st k p attributes)
      in *.
    assert (Hother : forall k', k <> k' -> dict_get (printers st1) k' = dict_get (printers st) k').
    { intros k' Hk'. destruct Hreg as [[-> _]|[-> _]]; [reflexivity|].
      now apply dict_get_set_other. }
    destruct (IH st1 Hnd') as [[adds [Hadds Hall]] [Hhost' Hkeep]].
    { intros k' Hk'. rewrite Hother by (intros ->; contradiction).
      apply Hout. now right. }
    split; [| split].
    + exists (c :: adds). split.
      * rewrite Hadds, Hcups, <- app_assoc. reflexivity.
      * constructor; [assumption|].
        eapply Forall2_impl; [| exact Hall].
        intros kv c' [info [attrs ->]]. exists info, attrs.
        unfold location_of. now rewrite Hhost.
    + congruence.
    + intros k' Hk'. cbn [dict_keys map fst In] in Hk'.
      rewrite Hkeep by (intros H; apply Hk'; now right).
      apply Hother. intros ->. apply Hk'. now left.
Qed.

Lemma drop_changed_all (st : mixin props) (arg : dict props) :
  NoDup (dict_keys (printers st)) ->
  fold_left (drop_changed props_eq) (dict_keys (printers st)) (st, arg) =
  (set_state st
     (filter (fun kv => unchanged props_eq (printers st) arg (fst kv)) (printers st))
     (filter (fun k => negb (dict_has (printers st) k &&
                             negb (unchanged props_eq (printers st) arg k)))
             (printers_added st))
     (cups st ++
      map RemovePrinter (to_remove props_eq (printers st) arg (printers_added st))),
   to_add props_eq (printers st) arg).
Proof.
  intros Hnd. rewrite drop_changed_each; [| assumption |].
  - f_equal; [f_equal|].
    + apply filter_ext_in. intros [x v] Hx. cbn [fst].
      assert (Hin : In x (dict_keys (printers st))) by (apply in_map_iff; now exists (x, v)).
      rewrite (proj2 (set_has_In _ _) Hin). cbn [andb]. apply negb_involutive.
    + apply filter_ext. intros [x v]. cbn [fst].
      destruct (unchanged props_eq (printers st) arg x) eqn:Hu;
        [| now rewrite andb_false_r].
      assert (Hin : In x (dict_keys (printers st))).
      { apply dict_get_In. unfold unchanged in Hu.
        destruct (dict_get (printers st) x); [discriminate | discriminate]. }
      now rewrite (proj2 (set_has_In _ _) Hin).
  - intros k Hk. now apply dict_get_In.
Qed.

(** X15: [set_printers] for a local client only records the argument, and
    for a client without UUID does nothing; neither makes a call on the
    backend.  For any other client the argument is left holding the
    printers that are new or defined otherwise than before; the backend is
    asked to remove the printers it had added that are gone or defined
    otherwise, and then to add each printer left in the argument, once and
    in order, and nothing else.  A printer defined as before keeps its
    entry, and every printer registered afterwards is one of the
    argument. *)
Theorem set_printers_changes (st : mixin props) (arg : dict props)
        (password_file : list pystr) (auth : auth_arg)
        (encryption encryption_keyfile : option pystr) :
  let r := set_printers props_eq strget get_machine_id ADD_LOCAL_PRINTERS
                        PRINTER_LOCATION_STRING DISPLAY makeabs add_printer
                        st arg password_file auth encryption encryption_keyfile in
  NoDup (dict_keys (printers st)) ->
  NoDup (dict_keys arg) ->
  (is_local get_machine_id ADD_LOCAL_PRINTERS st = true ->
   r = (set_state st arg (printers_added st) (cups st), arg)) /\
  (is_local get_machine_id ADD_LOCAL_PRINTERS st = false ->
   uuid st = [] -> r = (st, arg)) /\
  (is_local get_machine_id ADD_LOCAL_PRINTERS st = false ->
   uuid st <> [] ->
   snd r = to_add props_eq (printers st) arg /\
   (exists adds,
       cups (fst r) =
       cups st ++
       map RemovePrinter (to_remove props_eq (printers st) arg (printers_added st)) ++
       adds /\
       Forall2 (adds_printer PRINTER_LOCATION_STRING st)
               (to_add props_eq (printers st) arg) adds) /\
   (forall k, unchanged props_eq (printers st) arg k = true ->
              dict_get (printers (fst r)) k = dict_get (printers st) k) /\
   (forall k, In k (dict_keys (printers (fst r))) -> In k (dict_keys arg))).
Proof.
  intros r Hold Hnew. subst r. unfold set_printers.
  split; [| split].
  - intros ->. reflexivity.
  - intros -> ->. reflexivity.
  - intros -> Huuid.
    replace (is_empty_str (uuid st)) with false
      by (destruct (uuid st); [congruence | reflexivity]).
    rewrite drop_changed_all by assumption.
    set (st1 := set_state st _ _ _).
    set (attributes := printer_attributes _ _ _ _ _ _ _).
    cbn [fst snd].
    assert (Hkeys1 : forall k, In k (dict_keys (printers st1)) <->
                               unchanged props_eq (printers st) arg k = true).
    { intros k. unfold st1, set_state. cbn [printers].
      rewrite dict_keys_filter, filter_In. split; [tauto|]. intros Hu. split; [| exact Hu].
      apply dict_get_In. unfold unchanged in Hu.
      destruct (dict_get (printers st) k); [discriminate | discriminate]. }
    assert (Hkeys2 : forall k, In k (dict_keys (to_add props_eq (printers st) arg)) <->
                               In k (dict_keys arg) /\
                               unchanged props_eq (printers st) arg k = false).
    { intros k. unfold to_add.
      rewrite (dict_keys_filter (fun k => negb (unchanged props_eq (printers st) arg k))).
      rewrite filter_In, negb_true_iff. reflexivity. }
    destruct (add_new_each attributes (to_add props_eq (printers st) arg) st1)
      as [[adds [Hadds Hall]] [Hhost Hkeep]].
    { unfold to_add.
      rewrite (dict_keys_filter (fun k => negb (unchanged props_eq (printers st) arg k))).
      now apply NoDup_filter. }
    { intros k Hk. apply Hkeys2 in Hk. destruct Hk as [_ Hu].
      destruct (dict_get (printers st1) k) eqn:E; [| reflexivity].
      assert (Hin : In k (dict_keys (printers st1))) by (apply dict_get_In; congruence).
      apply Hkeys1 in Hin. congruence. }
    split; [reflexivity | split; [| split]].
    + exists adds. split.
      * rewrite Hadds. unfold st1, set_state. cbn [cups]. now rewrite app_assoc.
      * eapply Forall2_impl; [| exact Hall].
        intros kv c [info [attrs ->]]. exists info, attrs. reflexivity.
    + intros k Hu. rewrite Hkeep.
      * unfold st1, set_state. cbn [printers].
        now rewrite (dict_get_filter_key (unchanged props_eq (printers st) arg)).
      * intros Hk. apply Hkeys2 in Hk. destruct Hk as [_ Hk]. congruence.
    + intros k Hk.
      destruct (unchanged props_eq (printers st) arg k) eqn:Hu.
      * apply dict_get_In. unfold unchanged in Hu.
        destruct (dict_get (printers st) k); [| discriminate].
        destruct (dict_get arg k); [discriminate | discriminate].
      * destruct (in_dec (list_eq_dec N.eq_dec) k (dict_keys arg)) as [Hin|Hout];
          [assumption|].
        apply dict_get_In in Hk. rewrite Hkeep in Hk.
        -- apply dict_get_In, Hkeys1 in Hk. congruence.
        -- intros H. apply Hkeys2 in H. tauto.
Qed.

(** *** Sequences of calls *)

Lemma occurrences_cons (k x : pystr) (l : list pystr) :
  occurrences k (x :: l) = ((if str_eqb k x then 1 else 0) + occurrences k l)%nat.
Proof. unfold occurrences. cbn [filter]. now destruct (str_eqb k x). Qed.

Lemma occurrences_app (k : pystr) (l1 l2 : list pystr) :
  occurrences k (l1 ++ l2) = (occurrences k l1 + occurrences k l2)%nat.
Proof. unfold occurrences. now rewrite filter_app, length_app. Qed.

Lemma occurrences_has (k : pystr) (l : list pystr) :
  set_has l k = true <-> (1 <= occurrences k l)%nat.
Proof.
  unfold set_has. induction l as [|x l IH]; cbn [existsb].
  - cbn. split; [discriminate | lia].
  - rewrite occurrences_cons. destruct (str_eqb k x); cbn [orb].
    + split; [lia | reflexivity].
    + exact IH.
Qed.

Lemma occurrences_remove_same (k : pystr) (l : list pystr) :
  set_has l k = true -> (occurrences k (remove_one k l) + 1 = occurrences k l)%nat.
Proof.
  unfold set_has. induction l as [|x l IH]; cbn [existsb remove_one]; [discriminate|].
  destruct (str_eqb k x) eqn:E; cbn [orb]; intros H.
  - rewrite occurrences_cons, E. lia.
  - rewrite !occurrences_cons, E. cbn. now apply IH.
Qed.

Lemma occurrences_remove_other (k x : pystr) (l : list pystr) :
  x <> k -> occurrences k (remove_one x l) = occurrences k l.
Proof.
  intros Hx. induction l as [|y l IH]; [reflexivity|]. cbn [remove_one].
  destruct (str_eqb x y) eqn:E.
  - apply str_eqb_eq in E. subst y. rewrite occurrences_cons.
    now rewrite (str_eqb_neq k x) by congruence.
  - now rewrite !occurrences_cons, IH.
Qed.

Lemma set_has_add (s : list pystr) (x k : pystr) :
  set_has (set_add s x) k = set_has s k || str_eqb k x.
Proof.
  unfold set_add. destruct (set_has s x) eqn:E.
  - destruct (str_eqb k x) eqn:K; [| now rewrite orb_false_r].
    apply str_eqb_eq in K. subst k. now rewrite E.
  - unfold set_has. rewrite existsb_app. cbn [existsb]. now rewrite orb_false_r.
Qed.

Lemma set_has_remove_same (s : list pystr) (k : pystr) :
  set_has (set_remove s k) k = false.
Proof.
  apply set_has_not_In. intros H. apply set_remove_In in H. now destruct H.
Qed.

Lemma removals_covered_app (t1 t2 : list (cups_call props)) :
  forall credit,
    removals_covered credit (t1 ++ t2) =
    removals_covered credit t1 && removals_covered (credit_after credit t1) t2.
Proof.
  induction t1 as [|[k p info loc attrs|k] t1 IH]; intros credit;
    cbn [app removals_covered credit_after].
  - reflexivity.
  - apply IH.
  - rewrite IH. now rewrite andb_assoc.
Qed.

Lemma credit_after_app (t1 t2 : list (cups_call props)) :
  forall credit, credit_after credit (t1 ++ t2) = credit_after (credit_after credit t1) t2.
Proof.
  induction t1 as [|[k p info loc attrs|k] t1 IH]; intros credit;
    cbn [app credit_after]; [reflexivity | apply IH | apply IH].
Qed.

Lemma deferred_from_app (t1 t2 : list (cups_call props)) :
  forall before,
    deferred_from add_printer before (t1 ++ t2) =
    deferred_from add_printer before t1 ++ deferred_from add_printer (before ++ t1) t2.
Proof.
  induction t1 as [|c t1 IH]; intros before; cbn [app deferred_from].
  - now rewrite app_nil_r.
  - rewrite IH, <- !app_assoc. reflexivity.
Qed.

Lemma extends_refl (st : mixin props) : extends add_printer st st.
Proof.
  exists []. split; [now rewrite app_nil_r|].
  intros pend H. cbn [deferred_from]. now rewrite app_nil_r.
Qed.

Lemma extends_trans (st1 st2 st3 : mixin props) :
  extends add_printer st1 st2 -> extends add_printer st2 st3 ->
  extends add_printer st1 st3.
Proof.
  intros [t1 [E1 H1]] [t2 [E2 H2]]. exists (t1 ++ t2). split.
  - now rewrite E2, E1, app_assoc.
  - intros pend H. rewrite deferred_from_app, app_assoc, <- E1. apply H2, H1, H.
Qed.

(** A step that touches neither the trace nor [printers_added]. *)
Lemma extends_same (st st' : mixin props) :
  cups st' = cups st -> printers_added st' = printers_added st ->
  extends add_printer st st'.
Proof.
  intros Hc Ha. exists []. split; [now rewrite app_nil_r|].
  intros pend [H1 H2]. cbn [deferred_from]. rewrite app_nil_r.
  unfold accounted in *. cbn [mx pending] in *. rewrite Hc, Ha. now split.
Qed.

Lemma extends_remove_printer (st : mixin props) (k : pystr) :
  extends add_printer st (remove_printer st k).
Proof.
  unfold remove_printer. destruct (set_has (printers_added st) k) eqn:Hk;
    [| apply extends_refl].
  exists [RemovePrinter k]. split; [reflexivity|].
  intros pend [Hcov Hcount]. cbn [deferred_from app]. rewrite app_nil_r.
  unfold accounted in *. cbn [mx pending] in *.
  unfold set_state. cbn [cups printers_added].
  assert (Hcredit : set_has (credit_after [] (cups st)) k = true).
  { apply occurrences_has. specialize (Hcount k). rewrite Hk in Hcount. lia. }
  split.
  - rewrite removals_covered_app, Hcov. cbn [andb removals_covered].
    now rewrite Hcredit.
  - intros k'. rewrite credit_after_app. cbn [credit_after].
    specialize (Hcount k').
    destruct (list_eq_dec N.eq_dec k k') as [<-|Hne].
    + rewrite set_has_remove_same. rewrite Hk in Hcount.
      pose proof (occurrences_remove_same k _ Hcredit). lia.
    + rewrite set_has_remove_other by assumption.
      now rewrite occurrences_remove_other by assumption.
Qed.

Lemma extends_setup_printer (st : mixin props) (k : pystr) (p : props)
      (attributes : dict (option pystr)) :
  extends add_printer st
          (setup_printer strget PRINTER_LOCATION_STRING add_printer st k p attributes).
Proof.
  unfold setup_printer, printer_added, set_state. cbn zeta.
  cbn [cups printers printers_added machine_id uuid hostname unix_socket_paths].
  match goal with |- context [AddPrinter k p ?i ?l ?a] => set (c := AddPrinter k p i l a) end.
  exists [c]. split.
  - destruct (add_printer (cups st ++ [c])); reflexivity.
  - intros pend [Hcov Hcount]. unfold accounted in *. cbn [mx pending] in *.
    assert (Hcov' : removals_covered [] (cups st ++ [c]) = true).
    { rewrite removals_covered_app, Hcov. reflexivity. }
    assert (Hcredit : forall k', occurrences k' (credit_after [] (cups st ++ [c])) =
                                 ((if str_eqb k' k then 1 else 0) +
                                  occurrences k' (credit_after [] (cups st)))%nat).
    { intros k'. rewrite credit_after_app. unfold c. cbn [credit_after].
      apply occurrences_cons. }
    assert (Hdef : deferred_from add_printer (cups st) [c] =
                   match add_printer (cups st ++ [c]) with
                   | AddedLater => [(k, p)]
                   | _ => []
                   end).
    { cbn [deferred_from]. unfold c at 1. now rewrite app_nil_r. }
    rewrite Hdef. clear Hdef.
    destruct (add_printer (cups st ++ [c])); cbn [cups printers_added].
    + rewrite app_nil_r. split; [assumption|]. intros k'.
      rewrite Hcredit, set_has_add. specialize (Hcount k').
      destruct (set_has (printers_added st) k'), (str_eqb k' k); cbn [orb] in *; lia.
    + split; [assumption|]. intros k'.
      rewrite Hcredit, map_app, occurrences_app. cbn [map fst].
      rewrite occurrences_cons. cbn [occurrences filter length]. specialize (Hcount k').
      destruct (str_eqb k' k); lia.
    + rewrite app_nil_r.
      split; [assumption|]. intros k'. rewrite Hcredit. specialize (Hcount k'). lia.
Qed.

Lemma extends_remove_each (l : list pystr) :
  forall st : mixin props, extends add_printer st (fold_left remove_printer l st).
Proof.
  induction l as [|k l IH]; intros st; cbn [fold_left]; [apply extends_refl|].
  eapply extends_trans; [apply extends_remove_printer | apply IH].
Qed.

Lemma extends_drop_changed (ks : list pystr) :
  forall (st : mixin props) (arg : dict props),
    extends add_printer st (fst (fold_left (drop_changed props_eq) ks (st, arg))).
Proof.
  induction ks as [|k ks IH]; intros st arg; cbn [fold_left]; [apply extends_refl|].
  destruct (drop_changed props_eq (st, arg) k) as [st1 arg1] eqn:E.
  eapply extends_trans; [| apply IH].
  unfold drop_changed in E.
  destruct (match dict_get (printers st) k with
            | Some cpd => match dict_get arg k with
                          | Some npd => props_eq cpd npd
                          | None => false
                          end
            | None => match dict_get arg k with
                      | Some _ => false
                      | None => true
                      end
            end).
  - assert (st1 = st) by congruence. subst. apply extends_refl.
  - assert (st1 = remove_printer
                    (set_state st (dict_pop (printers st) k) (printers_added st) (cups st)) k)
      by congruence.
    subst st1. eapply extends_trans; [| apply extends_remove_printer].
    apply extends_same; reflexivity.
Qed.

Lemma extends_add_new (attributes : dict (option pystr)) (new : dict props) :
  forall st : mixin props,
    extends add_printer st
            (fold_left (add_new strget PRINTER_LOCATION_STRING add_printer attributes)
                       new st).
Proof.
  induction new as [|kv new IH]; intros st; cbn [fold_left]; [apply extends_refl|].
  eapply extends_trans; [| apply IH].
  unfold add_new. destruct (dict_has (printers st) (fst kv));
    [apply extends_refl | apply extends_setup_printer].
Qed.

Lemma extends_apply_call (st : mixin props) (c : mixin_call props) :
  extends add_printer st
          (apply_call props_eq strget get_machine_id ADD_LOCAL_PRINTERS
                      PRINTER_LOCATION_STRING DISPLAY makeabs add_printer st c).
Proof.
  assert (Hremove : extends add_printer st
                            (remove_printers get_machine_id ADD_LOCAL_PRINTERS st)).
  { unfold remove_printers.
    destruct (is_local get_machine_id ADD_LOCAL_PRINTERS st); [apply extends_refl|].
    eapply extends_trans; [| apply extends_remove_each].
    apply extends_same; reflexivity. }
  destruct c as [m | arg password_file auth encryption encryption_keyfile | |];
    cbn [apply_call]; [| | exact Hremove | exact Hremove].
  - apply extends_same; reflexivity.
  - unfold set_printers.
    destruct (is_local get_machine_id ADD_LOCAL_PRINTERS st);
      [cbn [fst]; apply extends_same; reflexivity|].
    destruct (is_empty_str (uuid st)); [apply extends_refl|].
    pose proof (extends_drop_changed (dict_keys (printers st)) st arg) as H1.
    destruct (fold_left (drop_changed props_eq) (dict_keys (printers st)) (st, arg))
      as [st1 arg1].
    cbn [fst] in *. eapply extends_trans; [exact H1 | apply extends_add_new].
Qed.

Lemma apply_event_accounted (w : world props) (e : event props) :
  accounted w ->
  accounted (apply_event props_eq strget get_machine_id ADD_LOCAL_PRINTERS
                         PRINTER_LOCATION_STRING DISPLAY makeabs add_printer w e).
Proof.
  intros Hw. destruct e as [c | n]; cbn [apply_event].
  - destruct (extends_apply_call (mx w) c) as [t [E H]]. cbn zeta.
    rewrite E, skipn_app, skipn_all, Nat.sub_diag. cbn [skipn app].
    apply H. now destruct w.
  - destruct (nth_error (pending w) n) as [[k p]|] eqn:Hn; [| assumption].
    destruct (nth_error_split _ _ Hn) as (l1 & l2 & Hl & Hlen).
    destruct Hw as [Hcov Hcount]. unfold accounted in *. cbn [mx pending] in *.
    unfold printer_added, set_state. cbn [cups printers_added].
    split; [assumption|]. intros k'. specialize (Hcount k').
    subst n.
    assert (Hf : firstn (length l1) (pending w) = l1).
    { rewrite Hl. clear. induction l1 as [|x l1 IH]; [reflexivity|]. cbn. now rewrite IH. }
    assert (Hs : skipn (S (length l1)) (pending w) = l2).
    { rewrite Hl. clear. induction l1 as [|x l1 IH]; [reflexivity|]. exact IH. }
    rewrite Hf, Hs. rewrite Hl in Hcount.
    rewrite !map_app, !occurrences_app in *. cbn [map fst] in Hcount.
    rewrite occurrences_cons in Hcount. rewrite set_has_add.
    destruct (set_has (printers_added (mx w)) k'), (str_eqb k' k); cbn [orb] in *; lia.
Qed.

(** X20: over any sequence of calls of [parse_client_caps], [set_printers],
    [remove_printers] and [cleanup] on a mixin just initialised, with the
    callbacks that [add_printer] defers running at any time between them,
    each removal asked of the backend is set against an addition of the
    same printer asked before it, and each addition against one removal
    at most: a printer is never removed more often than it was added.
    Every printer in [printers_added] still has an addition to its name
    that no removal has used. *)
Theorem removals_never_exceed_additions (st : mixin props) (events : list (event props)) :
  cups st = [] ->
  let w := run_events props_eq strget get_machine_id ADD_LOCAL_PRINTERS
                      PRINTER_LOCATION_STRING DISPLAY makeabs add_printer
                      events (World (init_state st) []) in
  removals_covered [] (cups (mx w)) = true /\
  (forall k, In k (printers_added (mx w)) -> In k (credit_after [] (cups (mx w)))).
Proof.
  intros Hcups. cbn zeta.
  assert (H0 : accounted (World (init_state st) [])).
  { unfold accounted, init_state. cbn [mx pending cups printers_added].
    rewrite Hcups. split; [reflexivity|]. intros k. cbn. lia. }
  revert H0. generalize (World (init_state st) []). unfold run_events.
  induction events as [|e events IH]; intros w Hw; cbn [fold_left].
  - destruct Hw as [Hcov Hcount]. split; [assumption|].
    intros k Hk. apply set_has_In in Hk. specialize (Hcount k). rewrite Hk in Hcount.
    apply set_has_In, occurrences_has. lia.
  - apply IH. now apply apply_event_accounted.
Qed.

End Printers.

Lemma removals_never_exceed_additions_witness :
  let st := @Mixin N [] [] (lit "m1") (lit "u1") (lit "host") [lit "/run/s"] [] in
  let events := [Call (SetPrinters [(lit "p1", 1%N)] [] NoAuth None None);
                 Call (SetPrinters [(lit "p1", 7%N)] [] NoAuth None None);
                 PrinterAdded 0;
                 Call RemovePrinters;
                 PrinterAdded 0;
                 Call Cleanup] in
  removals_covered []
    (cups (mx (run_events N.eqb (fun _ _ d => d) (lit "m0") false (lit "via xpra") None
                          (fun f => f) (fun _ => AddedLater) events
                          (World (init_state st) [])))) = true.
Proof.
  intros st events.
  exact (proj1 (removals_never_exceed_additions N N.eqb (fun _ _ d => d) (lit "m0") false
                  (lit "via xpra") None (fun f => f) (fun _ => AddedLater)
                  st events eq_refl)).
Defined.

Lemma set_printers_changes_witness :
  let st := @Mixin N [(lit "p1", 1%N); (lit "p2", 2%N); (lit "p3", 3%N)]
                   [lit "p1"; lit "p2"] (lit "m1") (lit "u1") (lit "host")
                   [lit "/run/s"] [] in
  let arg := [(lit "p1", 1%N); (lit "p2", 5%N); (lit "p4", 4%N)] in
  let r := set_printers N.eqb (fun _ _ d => d) (lit "m0") false (lit "via xpra") None
                        (fun f => f) (fun _ => AddedNow) st arg [] NoAuth None None in
  snd r = to_add N.eqb (printers st) arg /\
  (exists adds,
      cups (fst r) =
      cups st ++
      map RemovePrinter (to_remove N.eqb (printers st) arg (printers_added st)) ++ adds /\
      Forall2 (adds_printer (lit "via xpra") st) (to_add N.eqb (printers st) arg) adds) /\
  (forall k, unchanged N.eqb (printers st) arg k = true ->
             dict_get (printers (fst r)) k = dict_get (printers st) k) /\
  (forall k, In k (dict_keys (printers (fst r))) -> In k (dict_keys arg)).
Proof.
  intros st arg r.
  refine (proj2 (proj2 (set_printers_changes N N.eqb (fun _ _ d => d) (lit "m0") false
                                             (lit "via xpra") None (fun f => f)
                                             (fun _ => AddedNow) st arg [] NoAuth None None
                                             _ _)) _ _).
  - repeat constructor; cbn; intuition discriminate.
  - repeat constructor; cbn; intuition discriminate.
  - reflexivity.
  - discriminate.
Defined.

End FilePrintFacts.

Module SignalsFacts.
Import StrFn Signals.

Lemma int_get_set_same {V : Type} (d : list (Z * V)) (k : Z) (v : V) :
  int_get (int_set d k v) k = Some v.
Proof.
  induction d as [|[k' v'] d IH]; cbn [int_set int_get].
  - now rewrite Z.eqb_refl.
  - destruct (k =? k') eqn:E; cbn [int_get]; [now rewrite Z.eqb_refl | now rewrite E].
Qed.

Lemma int_get_set_other {V : Type} (d : list (Z * V)) (k k' : Z) (v : V) :
  k <> k' -> int_get (int_set d k v) k' = int_get d k'.
Proof.
  intros Hk. induction d as [|[x w] d IH]; cbn [int_set int_get].
  - now rewrite (proj2 (Z.eqb_neq k' k)) by congruence.
  - destruct (k =? x) eqn:E; cbn [int_get].
    + apply Z.eqb_eq in E. subst x. now rewrite (proj2 (Z.eqb_neq k' k)) by congruence.
    + now rewrite IH.
Qed.

Lemma distinct_ids_filter {H : Type} (keep : N * H -> bool) (srcs : list (N * H)) :
  NoDup (map fst srcs) -> NoDup (map fst (filter keep srcs)).
Proof.
  intros Hnd. induction srcs as [|[id h] srcs IH]; cbn [filter]; [constructor|].
  cbn [map fst] in Hnd. apply NoDup_cons_iff in Hnd. destruct Hnd as [Hid Hrest].
  destruct (keep (id, h)); [| now apply IH].
  cbn [map fst]. apply NoDup_cons; [| now apply IH].
  intros Hin. apply Hid. apply in_map_iff in Hin. destruct Hin as [[id' h'] [E Hin]].
  apply filter_In in Hin. apply in_map_iff. exists (id', h'). tauto.
Qed.

Section Registration.

Variable callback : Type.
Variable unix_signal_add_id : list N -> N.

(** [glib.unix_signal_add] gives the new source an id that no attached
    source has, and never 0. *)
Hypothesis id_new : forall ids, ~ In (unix_signal_add_id ids) ids.
Hypothesis id_positive : forall ids, unix_signal_add_id ids <> 0%N.

(** The sources left once the one recorded for [signum] is removed. *)
Lemma previous_removed (st : state callback) (signum : Z) :
  consistent st ->
  match int_get (glib_unix_signals st) signum with
  | Some id => if (id =? 0)%N then sources st else source_remove id (sources st)
  | None => sources st
  end = filter (fun s => negb (h_signum (snd s) =? signum)) (sources st).
Proof.
  intros [Hnd [Hsrc Htab]].
  destruct (int_get (glib_unix_signals st) signum) as [id|] eqn:E.
  - destruct (Htab signum id E) as [h [Hin Hsig]].
    destruct (Hsrc id h Hin) as [_ Hid].
    rewrite (proj2 (N.eqb_neq id 0) Hid).
    unfold source_remove. apply filter_ext_in. intros [id' h'] Hin'. cbn [fst snd].
    f_equal. destruct (N.eqb_spec id' id) as [->|Hne].
    + assert (h' = h).
      { clear - Hnd Hin Hin'. induction (sources st) as [|[i x] l IH]; [contradiction|].
        cbn [map fst] in Hnd. inversion Hnd as [|? ? Hi Hl]; subst.
        destruct Hin as [Hin|Hin], Hin' as [Hin'|Hin'].
        - congruence.
        - exfalso. apply Hi. apply in_map_iff. exists (id, h').
          split; [cbn [fst]; congruence | assumption].
        - exfalso. apply Hi. apply in_map_iff. exists (id, h).
          split; [cbn [fst]; congruence | assumption].
        - now apply IH. }
      subst h'. symmetry. now apply Z.eqb_eq.
    + symmetry. apply Z.eqb_neq. intros Hs. destruct (Hsrc id' h' Hin') as [Hget _].
      rewrite Hs, E in Hget. congruence.
  - symmetry. apply FilePrintFacts.filter_all. intros [id' h'] Hin'. cbn [snd].
    apply negb_true_iff, Z.eqb_neq. intros Hs. destruct (Hsrc id' h' Hin') as [Hget _].
    rewrite Hs, E in Hget. discriminate.
Qed.

Lemma handlers_without (signum signum' : Z) (l : list (N * handler callback)) :
  filter (fun h => h_signum h =? signum')
         (map snd (filter (fun s => negb (h_signum (snd s) =? signum)) l)) =
  if signum' =? signum then []
  else filter (fun h => h_signum h =? signum') (map snd l).
Proof.
  induction l as [|[id h] l IH]; cbn [filter map snd].
  - now destruct (signum' =? signum).
  - destruct (Z.eqb_spec (h_signum h) signum) as [Hs|Hs]; cbn [negb filter map snd].
    + rewrite IH. destruct (Z.eqb_spec signum' signum) as [->|Hne]; [reflexivity|].
      now rewrite (proj2 (Z.eqb_neq (h_signum h) signum')) by congruence.
    + rewrite IH. destruct (Z.eqb_spec signum' signum) as [->|Hne].
      * now rewrite (proj2 (Z.eqb_neq (h_signum h) signum)) by assumption.
      * reflexivity.
Qed.

Lemma register_os_signal_step (POSIX : bool) (cb : callback) (commandtype : pystr)
      (signum : Z) (st : state callback) :
  consistent st ->
  let st' := register_os_signal POSIX unix_signal_add_id cb commandtype signum st in
  consistent st' /\
  handlers_of POSIX signum st' = [Handler cb commandtype signum] /\
  (forall signum', signum' <> signum ->
                   handlers_of POSIX signum' st' = handlers_of POSIX signum' st).
Proof.
  intros Hst. cbn zeta. unfold register_os_signal, handlers_of. destruct POSIX.
  - rewrite (previous_removed st signum Hst).
    destruct Hst as [Hnd [Hsrc Htab]].
    set (srcs := filter _ (sources st)).
    set (id := unix_signal_add_id (map fst srcs)).
    cbn [sources glib_unix_signals].
    split; [split; [| split] | split].
    + cbn [sources]. rewrite map_app. cbn [map fst]. apply FilePrintFacts.NoDup_snoc.
      * now apply distinct_ids_filter.
      * apply id_new.
    + cbn [sources glib_unix_signals]. intros id' h' Hin.
      apply in_app_iff in Hin. destruct Hin as [Hin|[Hin|[]]].
      * apply filter_In in Hin. destruct Hin as [Hin Hsig]. cbn [snd] in Hsig.
        apply negb_true_iff, Z.eqb_neq in Hsig.
        rewrite int_get_set_other by congruence. now apply Hsrc.
      * assert (id' = id) by congruence.
        assert (h' = Handler cb commandtype signum) by congruence. subst id' h'.
        cbn [h_signum]. rewrite int_get_set_same. split; [reflexivity | apply id_positive].
    + cbn [sources glib_unix_signals]. intros signum' id' Hget.
      destruct (Z.eq_dec signum signum') as [<-|Hne].
      * rewrite int_get_set_same in Hget. assert (id' = id) by congruence. subst id'.
        exists (Handler cb commandtype signum). split; [| reflexivity].
        apply in_app_iff. right. now left.
      * rewrite int_get_set_other in Hget by assumption.
        destruct (Htab signum' id' Hget) as [h' [Hin Hsig]].
        exists h'. split; [| assumption]. apply in_app_iff. left.
        apply filter_In. split; [assumption|]. cbn [snd].
        apply negb_true_iff, Z.eqb_neq. congruence.
    + rewrite map_app, filter_app. unfold srcs. rewrite handlers_without.
      rewrite Z.eqb_refl. cbn [map snd filter h_signum]. now rewrite Z.eqb_refl.
    + intros signum' Hne. rewrite map_app, filter_app. unfold srcs.
      rewrite handlers_without. rewrite (proj2 (Z.eqb_neq signum' signum) Hne).
      cbn [map snd filter h_signum].
      rewrite (proj2 (Z.eqb_neq signum signum')) by congruence. apply app_nil_r.
  - cbn [sources glib_unix_signals os_handlers]. split; [exact Hst | split].
    + now rewrite int_get_set_same.
    + intros signum' Hne. now rewrite int_get_set_other by congruence.
Qed.

Lemma register_os_signals_step (POSIX : bool) (cb : callback) (commandtype : pystr)
      (signals : list Z) :
  forall st : state callback,
    consistent st ->
    let st' := register_os_signals POSIX unix_signal_add_id cb commandtype signals st in
    consistent st' /\
    (forall signum,
        handlers_of POSIX signum st' =
        if existsb (Z.eqb signum) signals then [Handler cb commandtype signum]
        else handlers_of POSIX signum st).
Proof.
  unfold register_os_signals.
  induction signals as [|s signals IH] using rev_ind; intros st Hst; cbn zeta.
  - cbn. auto.
  - rewrite fold_left_app. cbn [fold_left].
    destruct (IH st Hst) as [Hst1 Hh1].
    set (st1 := fold_left _ signals st) in *.
    destruct (register_os_signal_step POSIX cb commandtype s st1 Hst1) as [Hst2 [Hs Hother]].
    split; [assumption|]. intros signum. rewrite existsb_app. cbn [existsb].
    rewrite orb_false_r.
    destruct (Z.eqb_spec signum s) as [->|Hne].
    + rewrite orb_true_r. exact Hs.
    + rewrite orb_false_r, (Hother signum Hne). apply Hh1.
Qed.

(** X17: after any sequence of calls of [register_os_signals], each signal
    has exactly one handler, which holds the callback and the command type
    of the last call that registered the signal, and a signal that was
    never registered has none: registering a signal again replaces the
    handler it had.  The table [_glib_unix_signals] and the sources
    attached agree throughout. *)
Theorem register_os_signals_last (POSIX : bool) (calls : list (call callback))
        (signum : Z) :
  let st := run POSIX unix_signal_add_id calls init in
  consistent st /\
  handlers_of POSIX signum st =
  match last_call signum calls with
  | Some c => [Handler (fst (fst c)) (snd (fst c)) signum]
  | None => []
  end.
Proof.
  cbn zeta. revert signum. unfold run, last_call.
  induction calls as [|c calls IH] using rev_ind; intros signum.
  - cbn [fold_left rev find]. split.
    + split; [constructor | split]; cbn; [intros ? ? [] | discriminate].
    + unfold handlers_of. now destruct POSIX.
  - rewrite fold_left_app, rev_app_distr. cbn [fold_left rev app find].
    destruct (IH signum) as [Hst Hh].
    set (st := fold_left _ calls init) in *.
    destruct (register_os_signals_step POSIX (fst (fst c)) (snd (fst c)) (snd c) st Hst)
      as [Hst' Hh'].
    split; [assumption|]. rewrite Hh'.
    destruct (existsb (Z.eqb signum) (snd c)); [reflexivity | exact Hh].
Qed.

End Registration.

Lemma register_os_signals_last_witness :
  let add_id ids := (1 + list_max (map N.to_nat ids))%nat in
  handlers_of true 2
              (run true (fun ids => N.of_nat (add_id ids))
                   [(1%nat, lit "a", [2; 15]); (2%nat, lit "b", [2])] init) =
  [Handler 2%nat (lit "b") 2].
Proof.
  intros add_id.
  refine (proj2 (register_os_signals_last nat (fun ids => N.of_nat (add_id ids)) _ _ true
                   [(1%nat, lit "a", [2; 15]); (2%nat, lit "b", [2])] 2)).
  - intros ids Hin. unfold add_id in Hin.
    assert (Hmax : (N.to_nat (N.of_nat (1 + list_max (map N.to_nat ids))) <=
                    list_max (map N.to_nat ids))%nat).
    { assert (H : Forall (fun k => (k <= list_max (map N.to_nat ids))%nat)
                         (map N.to_nat ids)) by (apply list_max_le; lia).
      rewrite Forall_forall in H. apply H. now apply in_map. }
    lia.
  - intros ids. unfold add_id. lia.
Defined.

End SignalsFacts.

Module GstreamerFacts.
Import StrFn FilePrint Gstreamer.

Lemma skipn_nth {A : Type} (d : A) (l : list A) :
  forall n, (n < length l)%nat -> skipn n l = nth n l d :: skipn (S n) l.
Proof.
  induction l as [|a l IH]; intros n Hn; [cbn in Hn; lia|].
  destruct n as [|n]; [reflexivity|]. cbn [skipn nth]. rewrite IH by (cbn in Hn; lia).
  reflexivity.
Qed.

Lemma set_labels_from (messages : list pystr) (widgets : list pystr) :
  forall start,
    map (fun iw : nat * pystr =>
           if (fst iw <? length messages)%nat then nth (fst iw) messages [] else [])
        (combine (seq start (length widgets)) widgets) =
    firstn (length widgets) (skipn start messages) ++
    repeat [] (length widgets - (length messages - start)).
Proof.
  induction widgets as [|w widgets IH]; intros start.
  - cbn. reflexivity.
  - cbn [length seq combine map fst]. rewrite IH.
    destruct (Nat.ltb_spec start (length messages)) as [Hlt|Hge].
    + rewrite (@skipn_nth pystr [] messages start Hlt). cbn [firstn app].
      replace (S (length widgets) - (length messages - start))%nat
        with (length widgets - (length messages - S start))%nat by lia.
      reflexivity.
    + rewrite !skipn_all2 by lia. rewrite !firstn_nil. cbn [app].
      replace (S (length widgets) - (length messages - start))%nat
        with (S (length widgets - (length messages - S start))) by lia.
      reflexivity.
Qed.

(** X19: [_set_labels_text] gives the widgets, in order, the first messages
    there are and the empty text to every widget left: messages beyond the
    number of widgets are dropped, the number of widgets stays, and the
    texts the widgets had play no part, so the last call alone decides
    what is shown. *)
Theorem set_labels_text_shown (widgets messages messages' : list pystr) :
  _set_labels_text widgets messages =
  firstn (length widgets) messages ++ repeat [] (length widgets - length messages) /\
  length (_set_labels_text widgets messages) = length widgets /\
  _set_labels_text (_set_labels_text widgets messages') messages =
  _set_labels_text widgets messages.
Proof.
  assert (E : forall w, _set_labels_text w messages =
                        firstn (length w) messages ++ repeat [] (length w - length messages)).
  { intros w. unfold _set_labels_text, enumerate. rewrite set_labels_from.
    cbn [skipn]. now rewrite Nat.sub_0_r. }
  assert (L : forall w m, length (_set_labels_text w m) = length w).
  { intros w m. unfold _set_labels_text, enumerate.
    rewrite length_map, length_combine, length_seq. lia. }
  split; [apply E | split; [apply L|]].
  now rewrite !E, L.
Qed.

Lemma filter_keep_only (i : nat) (bs : list button) :
  forall start,
    filter active (map (keep_only i) (combine (seq start (length bs)) bs)) =
    match (if (start <=? i)%nat then nth_error bs (i - start) else None) with
    | Some t => if active t then [t] else []
    | None => []
    end.
Proof.
  induction bs as [|b bs IH]; intros start.
  - cbn. destruct (start <=? i)%nat; [destruct (i - start)%nat |]; reflexivity.
  - cbn [length seq combine map filter]. change (keep_only i (start, b))
      with (if (start =? i)%nat then b else set_active b false).
    rewrite IH. destruct (Nat.eqb_spec start i) as [->|Hne].
    + rewrite Nat.leb_refl, Nat.sub_diag. cbn [nth_error].
      rewrite (proj2 (Nat.leb_gt (S i) i)) by lia.
      now destruct (active b).
    + cbn [set_active active].
      destruct (Nat.leb_spec (S start) i) as [Hle|Hgt].
      * rewrite (proj2 (Nat.leb_le start i)) by lia.
        replace (i - start)%nat with (S (i - S start)) by lia. reflexivity.
      * now rewrite (proj2 (Nat.leb_gt start i)) by lia.
Qed.

Lemma flip_at_later (i : nat) (bs : list button) :
  forall start, (i < start)%nat ->
                map (flip_at i) (combine (seq start (length bs)) bs) = bs.
Proof.
  induction bs as [|b bs IH]; intros start Hlt; [reflexivity|].
  cbn [length seq combine map]. change (flip_at i (start, b))
      with (if (start =? i)%nat then set_active b (negb (active b)) else b).
  rewrite (proj2 (Nat.eqb_neq start i)) by lia. f_equal. apply IH. lia.
Qed.

Lemma nth_error_flip_at (i : nat) (bs : list button) :
  forall start, (start <= i)%nat ->
    nth_error (map (flip_at i) (combine (seq start (length bs)) bs)) (i - start) =
    option_map (fun b => set_active b (negb (active b))) (nth_error bs (i - start)).
Proof.
  induction bs as [|b bs IH]; intros start Hle.
  - cbn. now destruct (i - start)%nat.
  - cbn [length seq combine map]. change (flip_at i (start, b))
      with (if (start =? i)%nat then set_active b (negb (active b)) else b).
    destruct (Nat.eqb_spec start i) as [->|Hne].
    + rewrite Nat.sub_diag. reflexivity.
    + replace (i - start)%nat with (S (i - S start)) by lia. cbn [nth_error].
      apply IH. lia.
Qed.

Lemma active_counted (bs : list button) (k : nat) (b : button) :
  nth_error bs k = Some b -> active b = true -> (1 <= length (filter active bs))%nat.
Proof.
  revert k. induction bs as [|a bs IH]; intros k Hk Hb; [now destruct k|].
  cbn [filter]. destruct k as [|k]; cbn [nth_error] in Hk.
  - assert (a = b) by congruence. subst a. rewrite Hb. cbn. lia.
  - specialize (IH k Hk Hb). destruct (active a); cbn [length]; lia.
Qed.

Lemma filter_flip_off (i : nat) (bs : list button) :
  forall start b,
    (start <= i)%nat ->
    nth_error bs (i - start) = Some b ->
    active b = true ->
    (length (filter active bs) <= 1)%nat ->
    filter active (map (flip_at i) (combine (seq start (length bs)) bs)) = [].
Proof.
  induction bs as [|a bs IH]; intros start b Hle Hb Hact Hone; [reflexivity|].
  cbn [length seq combine map filter]. change (flip_at i (start, a))
      with (if (start =? i)%nat then set_active a (negb (active a)) else a).
  cbn [filter] in Hone.
  destruct (Nat.eqb_spec start i) as [->|Hne].
  - rewrite Nat.sub_diag in Hb. cbn [nth_error] in Hb.
    assert (a = b) by congruence. subst a.
    rewrite Hact in *. cbn [negb set_active active length] in *.
    rewrite flip_at_later by lia.
    destruct (filter active bs); [reflexivity | cbn [length] in Hone; lia].
  - replace (i - start)%nat with (S (i - S start)) in Hb by lia. cbn [nth_error] in Hb.
    pose proof (active_counted bs _ b Hb Hact) as Hge.
    destruct (active a); [cbn [length] in Hone; lia|].
    apply (IH (S start) b); [lia | assumption | assumption | assumption].
Qed.

Lemma backend_keep_only (i : nat) (bs : list button) :
  forall start,
    map backend (map (keep_only i) (combine (seq start (length bs)) bs)) = map backend bs.
Proof.
  induction bs as [|b bs IH]; intros start; [reflexivity|].
  cbn [length seq combine map]. rewrite IH. f_equal.
  unfold keep_only. cbn [fst snd]. now destruct (start =? i)%nat.
Qed.

Lemma backend_flip_at (i : nat) (bs : list button) :
  forall start,
    map backend (map (flip_at i) (combine (seq start (length bs)) bs)) = map backend bs.
Proof.
  induction bs as [|b bs IH]; intros start; [reflexivity|].
  cbn [length seq combine map]. rewrite IH. f_equal.
  unfold flip_at. cbn [fst snd]. now destruct (start =? i)%nat.
Qed.

Lemma existsb_filter (bs : list button) :
  existsb active bs = true <-> filter active bs <> [].
Proof.
  induction bs as [|b bs IH]; cbn [existsb filter].
  - split; [discriminate | congruence].
  - destruct (active b); cbn [orb]; [split; [discriminate | reflexivity] | exact IH].
Qed.

Lemma click_settled (i : nat) (g : shadow_gui) :
  settled g ->
  settled (click i g) /\ map backend (buttons (click i g)) = map backend (buttons g).
Proof.
  intros [Hone Hconf]. unfold click.
  destruct (nth_error (buttons g) i) as [b|] eqn:Hb; [| now split].
  unfold option_toggled. cbn [buttons confirm_sensitive].
  fold (flip_at i). fold (keep_only i). unfold enumerate.
  pose proof (nth_error_flip_at i (buttons g) 0 (Nat.le_0_l i)) as Hnth.
  rewrite Nat.sub_0_r, Hb in Hnth. cbn [option_map] in Hnth.
  set (bs1 := map (flip_at i) (combine (seq 0 (length (buttons g))) (buttons g))) in *.
  rewrite !Hnth. cbn [set_active active].
  destruct (active b) eqn:Hact; cbn [negb].
  - assert (Hoff : filter active bs1 = []).
    { apply (filter_flip_off i (buttons g) 0 b); [lia | | assumption | assumption].
      now rewrite Nat.sub_0_r. }
    split; [split|].
    + cbn [buttons]. rewrite Hoff. cbn. lia.
    + cbn [buttons confirm_sensitive]. intros H. now apply existsb_filter in H.
    + cbn [buttons]. apply backend_flip_at.
  - assert (Hon : filter active (map (keep_only i) (combine (seq 0 (length bs1)) bs1)) =
                  [set_active b true]).
    { rewrite filter_keep_only. cbn [Nat.leb]. rewrite Nat.sub_0_r, Hnth. reflexivity. }
    split; [split|].
    + cbn [buttons]. rewrite Hon. cbn. lia.
    + cbn [buttons confirm_sensitive]. intros _. rewrite Hon. discriminate.
    + cbn [buttons]. rewrite backend_keep_only. apply backend_flip_at.
Qed.

Lemma clicks_settled (l : list nat) :
  forall g, settled g ->
            settled (clicks l g) /\ map backend (buttons (clicks l g)) = map backend (buttons g).
Proof.
  unfold clicks. induction l as [|i l IH]; intros g Hg; [now split|].
  cbn [fold_left]. destruct (click_settled i g Hg) as [Hg' Hb].
  destruct (IH (click i g) Hg') as [Hg'' Hb']. split; [assumption | congruence].
Qed.

Lemma configure_shadow_settled (elements : list pystr) (current_setting : option pystr)
      (g : shadow_gui) :
  configure_shadow true false elements current_setting = Some g ->
  settled g /\ map backend (buttons g) = [lit "auto"; lit "X11"; lit "pipewire"].
Proof.
  unfold configure_shadow. cbn [andb negb]. intros E.
  assert (g = ShadowGui
                (map (fun o => Button (snd o) (fst o)
                                      match current_setting with
                                      | Some c => str_eqb (snd o) c
                                      | None => false
                                      end)
                     [(true, lit "auto");
                      (has elements [lit "ximagesrc"], lit "X11");
                      (has elements [lit "pipewiresrc"], lit "pipewire")]) false)
    by congruence.
  subst g. clear E. split; [split|].
  - cbn [buttons map filter fst snd active].
    destruct current_setting as [c|]; [| cbn; lia].
    destruct (str_eqb (lit "auto") c) eqn:E1;
      destruct (str_eqb (lit "X11") c) eqn:E2;
      destruct (str_eqb (lit "pipewire") c) eqn:E3;
      try (cbn [length]; lia);
      repeat match goal with
             | H : str_eqb _ c = true |- _ => apply FilePrintFacts.str_eqb_eq in H
             end;
      exfalso; subst; discriminate.
  - cbn [confirm_sensitive]. discriminate.
  - reflexivity.
Qed.

Section Save.

Variable lower : pystr -> pystr.
Variable backends : list pystr.

(** X18: in the window of [configure_shadow], whatever the options clicked,
    at most one option is active, and whenever the confirm button is
    sensitive exactly one is: [save_shadow] then passes its assertion, and
    it saves the lower-cased backend of that option (one of auto, X11 and
    pipewire) or rejects it as invalid.  On any platform other than POSIX
    without macOS [configure_shadow] makes no option. *)
Theorem shadow_confirm_safe (POSIX OSX : bool) (elements : list pystr)
        (current_setting : option pystr) (l : list nat) :
  (POSIX && negb OSX = false ->
   configure_shadow POSIX OSX elements current_setting = None) /\
  (POSIX && negb OSX = true ->
   exists g0,
     configure_shadow POSIX OSX elements current_setting = Some g0 /\
     let g := clicks l g0 in
     (length (filter active (buttons g)) <= 1)%nat /\
     (confirm_sensitive g = true ->
      exists b,
        filter active (buttons g) = [b] /\
        In (backend b) [lit "auto"; lit "X11"; lit "pipewire"] /\
        save_shadow lower backends g =
        if set_has backends (lower (backend b))
        then Saved (lower (backend b))
        else InvalidBackend (lower (backend b)))).
Proof.
  split.
  - intros H. unfold configure_shadow. now rewrite H.
  - intros H. apply andb_true_iff in H. destruct H as [-> H].
    apply negb_true_iff in H. subst OSX.
    destruct (configure_shadow true false elements current_setting) as [g0|] eqn:E;
      [| discriminate].
    exists g0. split; [reflexivity|].
    destruct (configure_shadow_settled elements current_setting g0 E) as [Hg0 Hb0].
    destruct (clicks_settled l g0 Hg0) as [[Hone Hconf] Hb]. cbn zeta.
    split; [assumption|]. intros Hc. specialize (Hconf Hc).
    destruct (filter active (buttons (clicks l g0))) as [|b [|b' rest]] eqn:Hf;
      [congruence | | cbn [length] in Hone; lia].
    exists b. split; [reflexivity | split].
    + rewrite <- Hb0, <- Hb. apply in_map.
      assert (Hin : In b (filter active (buttons (clicks l g0)))) by (rewrite Hf; now left).
      now apply filter_In in Hin.
    + unfold save_shadow. now rewrite Hf.
Qed.

End Save.

Lemma shadow_confirm_safe_witness :
  exists g0,
    configure_shadow true false [lit "ximagesrc"] (Some (lit "auto")) = Some g0 /\
    let g := clicks [1%nat] g0 in
    (length (filter active (buttons g)) <= 1)%nat /\
    (confirm_sensitive g = true ->
     exists b,
       filter active (buttons g) = [b] /\
       In (backend b) [lit "auto"; lit "X11"; lit "pipewire"] /\
       save_shadow (fun s => s) [lit "auto"; lit "x11"] g =
       if set_has [lit "auto"; lit "x11"] (backend b)
       then Saved (backend b)
       else InvalidBackend (backend b)).
Proof.
  apply (proj2 (shadow_confirm_safe (fun s => s) [lit "auto"; lit "x11"] true false
                                    [lit "ximagesrc"] (Some (lit "auto")) [1%nat])).
  reflexivity.
Defined.

End GstreamerFacts.
